(** * TidyLibrary: the scan-and-plan engine and the move executor of
    [server.js], embedded in Rocq.

    JavaScript strings are sequences of UTF-16 code units; they are modelled
    as lists of code units ([N]).  The functions of [server.js] keep their
    names.  The few library calls they rely on (String.prototype methods,
    [isNaN], [parseInt], the posix flavour of Node's [path] module and the
    [fs] calls) are modelled next to them. *)

From Stdlib Require Import List NArith ZArith Bool Lia Arith.
From Stdlib Require Import Ascii String DecimalString.
From Stdlib Require Import Permutation Sorted.
Import ListNotations.

Set Implicit Arguments.

(** ** JavaScript strings *)

Module JS.

Definition char := N.
Definition jsstring := list char.

(** A string literal, code unit by code unit. *)
Definition str (s : string) : jsstring :=
  map N_of_ascii (list_ascii_of_string s).

Definition char_eqb (a b : char) : bool := N.eqb a b.

Fixpoint string_eqb (a b : jsstring) : bool :=
  match a, b with
  | [], [] => true
  | x :: a', y :: b' => char_eqb x y && string_eqb a' b'
  | _, _ => false
  end.

(** [a < b] on two strings: code units compared left to right, a strict
    prefix being smaller. *)
Fixpoint string_ltb (a b : jsstring) : bool :=
  match a, b with
  | _, [] => false
  | [], _ :: _ => true
  | x :: a', y :: b' =>
      if N.ltb x y then true
      else if N.ltb y x then false
      else string_ltb a' b'
  end.

(** WhiteSpace and LineTerminator code units: what the regular expression
    class [\s] matches and what [trim] strips. *)
Definition is_space (c : char) : bool :=
  ((9 <=? c) && (c <=? 13) || (c =? 32) || (c =? 160) || (c =? 5760)
   || (8192 <=? c) && (c <=? 8202) || (c =? 8232) || (c =? 8233)
   || (c =? 8239) || (c =? 8287) || (c =? 12288) || (c =? 65279))%N.

(** What [\d] matches. *)
Definition is_digit (c : char) : bool := ((48 <=? c) && (c <=? 57))%N.

Fixpoint dropWhile (p : char -> bool) (s : jsstring) : jsstring :=
  match s with
  | [] => []
  | c :: r => if p c then dropWhile p r else s
  end.

Fixpoint takeWhile (p : char -> bool) (s : jsstring) : jsstring :=
  match s with
  | [] => []
  | c :: r => if p c then c :: takeWhile p r else []
  end.

Definition trimStart (s : jsstring) : jsstring := dropWhile is_space s.
Definition trimEnd (s : jsstring) : jsstring := rev (dropWhile is_space (rev s)).
Definition trim (s : jsstring) : jsstring := trimEnd (trimStart s).

(** [s.includes(c)] for a one-character needle. *)
Definition includes (c : char) (s : jsstring) : bool := existsb (char_eqb c) s.

(** [s.split(c)] for a one-character separator: never empty. *)
Fixpoint split (c : char) (s : jsstring) : list jsstring :=
  match s with
  | [] => [[]]
  | x :: r =>
      if char_eqb x c then [] :: split c r
      else match split c r with
           | p :: ps => (x :: p) :: ps
           | [] => [[x]]
           end
  end.

(** [parts[i]]; [undefined] is [None]. *)
Definition index {A} (l : list A) (i : nat) : option A := nth_error l i.

(** [s.padStart(2, '0')]. *)
Definition padStart2 (s : jsstring) : jsstring :=
  repeat 48%N (2 - List.length s) ++ s.

(** [s.toLowerCase()] on the Basic Latin range; code units outside it are
    left alone (the full Unicode mapping is outside this model). *)
Definition lower (c : char) : char :=
  if ((65 <=? c) && (c <=? 90))%N then (c + 32)%N else c.
Definition toLowerCase (s : jsstring) : jsstring := map lower s.

(** [parts.join(sep)]. *)
Fixpoint join (sep : jsstring) (l : list jsstring) : jsstring :=
  match l with
  | [] => []
  | [x] => x
  | x :: r => x ++ sep ++ join sep r
  end.

(** *** Numbers as far as the program needs them

    [isNaN(s)] on a string asks whether [Number(s)] is NaN, that is whether
    [s] fails the StringNumericLiteral grammar. *)

Definition all_digits (s : jsstring) : bool := forallb is_digit s.
Definition nonempty (s : jsstring) : bool :=
  match s with [] => false | _ => true end.

Definition signedInteger (s : jsstring) : bool :=
  match s with
  | c :: r => if ((c =? 43) || (c =? 45))%N then nonempty r && all_digits r
              else all_digits s
  | [] => false
  end.

Definition exponentOpt (s : jsstring) : bool :=
  match s with
  | [] => true
  | c :: r => ((c =? 101) || (c =? 69))%N && signedInteger r
  end.

Definition strUnsignedDecimalLiteral (s : jsstring) : bool :=
  if string_eqb s (str "Infinity") then true
  else
    let ip := takeWhile is_digit s in
    match dropWhile is_digit s with
    | c :: r =>
        if (c =? 46)%N then
          let fp := takeWhile is_digit r in
          (nonempty ip || nonempty fp) && exponentOpt (dropWhile is_digit r)
        else nonempty ip && exponentOpt (c :: r)
    | [] => nonempty ip
    end.

Definition is_hex (c : char) : bool :=
  (is_digit c || (97 <=? c) && (c <=? 102) || (65 <=? c) && (c <=? 70))%N.
Definition is_oct (c : char) : bool := ((48 <=? c) && (c <=? 55))%N.
Definition is_bin (c : char) : bool := ((c =? 48) || (c =? 49))%N.

Definition nonDecimalIntegerLiteral (s : jsstring) : bool :=
  match s with
  | z :: k :: r =>
      if negb (z =? 48)%N then false
      else if ((k =? 120) || (k =? 88))%N then nonempty r && forallb is_hex r
      else if ((k =? 111) || (k =? 79))%N then nonempty r && forallb is_oct r
      else if ((k =? 98) || (k =? 66))%N then nonempty r && forallb is_bin r
      else false
  | _ => false
  end.

Definition strNumericLiteral (s : jsstring) : bool :=
  match s with
  | c :: r =>
      if ((c =? 43) || (c =? 45))%N then strUnsignedDecimalLiteral r
      else strUnsignedDecimalLiteral s || nonDecimalIntegerLiteral s
  | [] => false
  end.

Definition isNaN (s : jsstring) : bool :=
  match trim s with
  | [] => false                       (* Number of the empty string is 0 *)
  | t => negb (strNumericLiteral t)
  end.

(** Numbers the sort key can hold: NaN or an integer.  A JavaScript number is
    a double, so [Int z] stands for the number only while [z] is below 2^53
    in absolute value (digit runs of at most 15 digits). *)
Inductive number := NaN | Int (z : Z).

Definition hex_value (c : char) : N :=
  if is_digit c then (c - 48)%N
  else if ((97 <=? c) && (c <=? 102))%N then (c - 87)%N
  else (c - 55)%N.

Definition radix_value (radix : N) (s : jsstring) : N :=
  fold_left (fun acc c => (radix * acc + hex_value c)%N) s 0%N.

(** [parseInt(s)] without a radix argument: leading white space and one sign
    are skipped, a [0x] prefix selects radix 16, the longest run of digits of
    the radix is read, and no digit at all gives NaN. *)
Definition parseInt (s : jsstring) : number :=
  let t := trimStart s in
  let '(neg, t) :=
    match t with
    | c :: r => if (c =? 45)%N then (true, r)
                else if (c =? 43)%N then (false, r) else (false, t)
    | [] => (false, t)
    end in
  let '(radix, isd, t) :=
    match t with
    | z :: k :: r =>
        if (z =? 48)%N && ((k =? 120) || (k =? 88))%N then (16%N, is_hex, r)
        else (10%N, is_digit, t)
    | _ => (10%N, is_digit, t)
    end in
  match takeWhile isd t with
  | [] => NaN
  | ds => let v := Z.of_N (radix_value radix ds) in
          Int (if neg then (- v)%Z else v)
  end.

(** [String(x)] of a number. *)
Definition number_toString (x : number) : jsstring :=
  match x with
  | NaN => str "NaN"
  | Int z => str (NilZero.string_of_int (Z.to_int z))
  end.

End JS.
Import JS.


(** ** Node's [path] module, posix flavour *)

Module Path.

Definition slash : char := 47%N.
Definition dot : char := 46%N.
Definition is_slash (c : char) : bool := char_eqb c slash.
Definition not_slash (c : char) : bool := negb (is_slash c).
Definition not_dot (c : char) : bool := negb (char_eqb c dot).

Definition dotdot : jsstring := [dot; dot].

(** [normalizeString]: the segments between slashes are pushed on a stack;
    empty segments and [.] are skipped; [..] pops the last segment unless
    there is none or it is itself [..], in which case it is kept when
    [allowAboveRoot] and dropped otherwise. *)
Fixpoint normalizeSegments (allowAboveRoot : bool) (stack : list jsstring)
         (segs : list jsstring) : list jsstring :=
  match segs with
  | [] => rev stack
  | seg :: rest =>
      if string_eqb seg [] || string_eqb seg [dot] then
        normalizeSegments allowAboveRoot stack rest
      else if string_eqb seg dotdot then
        match stack with
        | top :: below =>
            if string_eqb top dotdot then
              normalizeSegments allowAboveRoot
                (if allowAboveRoot then dotdot :: stack else stack) rest
            else normalizeSegments allowAboveRoot below rest
        | [] =>
            normalizeSegments allowAboveRoot
              (if allowAboveRoot then [dotdot] else []) rest
        end
      else normalizeSegments allowAboveRoot (seg :: stack) rest
  end.

Definition normalizeString (path : jsstring) (allowAboveRoot : bool) : jsstring :=
  join [slash] (normalizeSegments allowAboveRoot [] (split slash path)).

Definition isAbsolute (path : jsstring) : bool :=
  match path with c :: _ => is_slash c | [] => false end.

Definition normalize (path : jsstring) : jsstring :=
  match path with
  | [] => [dot]
  | _ =>
      let trailingSeparator :=
        match rev path with c :: _ => is_slash c | [] => false end in
      let p := normalizeString path (negb (isAbsolute path)) in
      match p with
      | [] => if isAbsolute path then [slash]
              else if trailingSeparator then [dot; slash] else [dot]
      | _ => let p := if trailingSeparator then p ++ [slash] else p in
             if isAbsolute path then slash :: p else p
      end
  end.

(** [path.join(...args)]: the non-empty arguments joined by a slash, then
    normalized. *)
Definition join (args : list jsstring) : jsstring :=
  match filter nonempty args with
  | [] => [dot]
  | parts => normalize (JS.join [slash] parts)
  end.

(** [path.dirname]: the path up to the slash that precedes its last
    component; the first character is never that slash. *)
Definition dirname (path : jsstring) : jsstring :=
  match path with
  | [] => [dot]
  | c0 :: tail =>
      let hasRoot := is_slash c0 in
      match dropWhile not_slash (dropWhile is_slash (rev tail)) with
      | [] => if hasRoot then [slash] else [dot]
      | _ :: before =>
          match before with
          | [] => if hasRoot then [slash; slash] else [c0]
          | _ => c0 :: rev before
          end
      end
  end.

(** The last component of a path, trailing slashes ignored. *)
Definition lastComponent (path : jsstring) : jsstring :=
  rev (takeWhile not_slash (dropWhile is_slash (rev path))).

(** [path.extname]: from the last dot of the last component to its end;
    empty when there is no dot, when the dot is the component's first
    character, or when the component is [..]. *)
Definition extname (path : jsstring) : jsstring :=
  let comp := rev (lastComponent path) in
  match dropWhile not_dot comp with
  | [] => []
  | _ :: before =>
      match before with
      | [] => []
      | _ => if string_eqb (lastComponent path) dotdot then []
             else dot :: rev (takeWhile not_dot comp)
      end
  end.

End Path.

(** ** Values of [JSON.parse]

    A number is carried as the text [String] gives for it; an object as its
    property table, the first binding of a key being the one looked up. *)

#[warnings="-register-all"] Inductive json :=
| JNull
| JBool (b : bool)
| JNum (text : jsstring)
| JStr (s : jsstring)
| JArr (items : list json)
| JObj (props : list (jsstring * json)).

Fixpoint assoc {A} (key : jsstring) (l : list (jsstring * A)) : option A :=
  match l with
  | [] => None
  | (k, v) :: r => if string_eqb k key then Some v else assoc key r
  end.

(** [value[key]] for the keys the program reads (none of them is a member of
    a prototype); [undefined] is [None]. *)
Definition prop (value : json) (key : jsstring) : option json :=
  match value with
  | JObj props => assoc key props
  | _ => None
  end.

(** [String(value)] for a value that is neither null nor an array. *)
Definition json_toString (value : json) : jsstring :=
  match value with
  | JNull => str "null"
  | JBool true => str "true"
  | JBool false => str "false"
  | JNum text => text
  | JStr s => s
  | JArr _ => []
  | JObj _ => str "[object Object]"
  end.

Definition truthy (value : json) : bool :=
  match value with
  | JNull => false
  | JBool b => b
  | JNum text => negb (string_eqb text (str "0"))
  | JStr s => nonempty s
  | JArr _ | JObj _ => true
  end.

(** ** Utility functions of [server.js] *)

(** [String(s).split(/(\d+)/)]: the runs of digits and the text between
    them, alternating, the first and the last part being text (maybe
    empty). *)
Fixpoint splitDigitRuns (s : jsstring) : list jsstring :=
  match s with
  | [] => [[]]
  | c :: r =>
      match splitDigitRuns r with
      | p0 :: rest =>
          if is_digit c then
            match p0, rest with
            | [], d :: rest' => [] :: (c :: d) :: rest'
            | _, _ => [] :: [c] :: p0 :: rest
            end
          else (c :: p0) :: rest
      | [] => [[c]]
      end
  end.

Inductive keyPart := KText (s : jsstring) | KNumber (x : number).

Definition naturalSortKey (s : jsstring) : list keyPart :=
  map (fun part => if isNaN part then KText (toLowerCase part)
                   else KNumber (parseInt part))
      (splitDigitRuns s).

(** [aKey < bKey] on two arrays compares their string forms, which are
    [aKey.join(",")]. *)
Definition keyPart_toString (p : keyPart) : jsstring :=
  match p with
  | KText s => s
  | KNumber x => number_toString x
  end.

Definition array_toString (key : list keyPart) : jsstring :=
  JS.join (str ",") (map keyPart_toString key).

Definition array_ltb (a b : list keyPart) : bool :=
  string_ltb (array_toString a) (array_toString b).

(** The comparison function handed to [sort]. *)
Definition compareFn (a b : jsstring) : Z :=
  let aKey := naturalSortKey a in
  let bKey := naturalSortKey b in
  if array_ltb aKey bKey then (-1)%Z
  else if array_ltb bKey aKey then 1%Z else 0%Z.

(** [Array.prototype.sort] is stable: an element is put behind the ones that
    do not compare greater. *)
Fixpoint insert {A} (cmp : A -> A -> Z) (x : A) (l : list A) : list A :=
  match l with
  | [] => [x]
  | y :: r => if (cmp y x <=? 0)%Z then y :: insert cmp x r else x :: l
  end.

Definition sort {A} (cmp : A -> A -> Z) (l : list A) : list A :=
  fold_left (fun sorted x => insert cmp x sorted) l [].

Definition stripListOpen (s : jsstring) : jsstring :=
  match s with
  | b :: q :: r => if (b =? 91)%N && ((q =? 39) || (q =? 34))%N then r else s
  | _ => s
  end.

Definition stripListClose (s : jsstring) : jsstring :=
  match rev s with
  | b :: q :: r => if (b =? 93)%N && ((q =? 39) || (q =? 34))%N then rev r else s
  | _ => s
  end.

Fixpoint cleanMetadata (value : json) : jsstring :=
  match value with
  | JNull => []
  | JArr [] => []
  | JArr (first :: _) => cleanMetadata first
  | _ =>
      let s := json_toString value in
      let s := if includes 44%N s then hd [] (split 44%N s) else s in
      let s := stripListClose (stripListOpen s) in
      trim s
  end.

Definition invalidChars : jsstring := [60; 62; 58; 34; 47; 92; 124; 63; 42]%N.

(** [cleaned.replace(/c/g, '')]. *)
Definition removeAll (c : char) (s : jsstring) : jsstring :=
  filter (fun x => negb (char_eqb x c)) s.

(** [s.replace(/\s+/g, ' ')]; [inRun] tells that the previous character
    belonged to the run being replaced. *)
Fixpoint collapseSpaces (inRun : bool) (s : jsstring) : jsstring :=
  match s with
  | [] => []
  | c :: r =>
      if is_space c then
        if inRun then collapseSpaces true r else 32%N :: collapseSpaces true r
      else c :: collapseSpaces false r
  end.

Definition cleanFilename (name : jsstring) : jsstring :=
  match name with
  | [] => []
  | _ =>
      let cleaned := fold_left (fun cleaned c => removeAll c cleaned) invalidChars name in
      trim (collapseSpaces false cleaned)
  end.

(** The first of [keyNames] whose value in [data] is neither null nor
    undefined. *)
Fixpoint firstPresent (data : json) (keyNames : list jsstring) : option json :=
  match keyNames with
  | [] => None
  | key :: rest =>
      match prop data key with
      | Some JNull | None => firstPresent data rest
      | Some v => Some v
      end
  end.

(** [getMetadataValue]; [None] is the TypeError of reading a property of
    [null]. *)
Definition getMetadataValue (data : json) (keyNames : list jsstring)
  : option jsstring :=
  match data with
  | JNull => None
  | _ =>
      match firstPresent data keyNames with
      | Some v => Some (cleanMetadata v)
      | None =>
          let meta := match prop data (str "metadata") with
                      | Some m => if truthy m then m else JObj []
                      | None => JObj []
                      end in
          match firstPresent meta keyNames with
          | Some v => Some (cleanMetadata v)
          | None => Some []
          end
      end
  end.

(** ** The file system

    A tree of directories and files.  A file is known by its content; a
    content is either a JSON text, known by the value [JSON.parse] gives for
    it, or other bytes, which [JSON.parse] rejects.  Paths are resolved from
    the root directory, lexically ([.] and [..] included); there are no
    symbolic links and no permissions.  File sizes are not part of the
    model. *)

Module FS.

Inductive content := Json (value : json) | Raw (bytes : list N).

#[warnings="-register-all"] Inductive node :=
| File (c : content)
| Dir (entries : list (jsstring * node)).

Definition isDirectory (n : node) : bool :=
  match n with Dir _ => true | File _ => false end.

(** The segments a path resolves to; the empty path resolves to nothing. *)
Definition resolve (path : jsstring) : option (list jsstring) :=
  match path with
  | [] => None
  | _ => Some (Path.normalizeSegments false [] (split Path.slash path))
  end.

Fixpoint removeEntry (name : jsstring) (es : list (jsstring * node))
  : list (jsstring * node) :=
  match es with
  | [] => []
  | (k, v) :: r => if string_eqb k name then r else (k, v) :: removeEntry name r
  end.

(** Replaces the first binding of [name], or adds one at the end. *)
Fixpoint setEntry (name : jsstring) (x : node) (es : list (jsstring * node))
  : list (jsstring * node) :=
  match es with
  | [] => [(name, x)]
  | (k, v) :: r => if string_eqb k name then (k, x) :: r
                   else (k, v) :: setEntry name x r
  end.

Fixpoint get (n : node) (segs : list jsstring) : option node :=
  match segs with
  | [] => Some n
  | s :: r =>
      match n with
      | Dir es => match assoc s es with
                  | Some child => get child r
                  | None => None
                  end
      | File _ => None
      end
  end.

(** Cuts the node at [segs] out of the tree: the node and what is left. *)
Fixpoint cut (n : node) (segs : list jsstring) : option (node * node) :=
  match segs, n with
  | [], _ => None
  | _, File _ => None
  | [s], Dir es =>
      match assoc s es with
      | Some child => Some (child, Dir (removeEntry s es))
      | None => None
      end
  | s :: r, Dir es =>
      match assoc s es with
      | Some child =>
          match cut child r with
          | Some (x, child') => Some (x, Dir (setEntry s child' es))
          | None => None
          end
      | None => None
      end
  end.

(** Puts [x] at [segs], in place of what is there if anything; the parent
    directory has to exist. *)
Fixpoint put (n : node) (segs : list jsstring) (x : node) : option node :=
  match segs, n with
  | [], _ => None
  | _, File _ => None
  | [s], Dir es => Some (Dir (setEntry s x es))
  | s :: r, Dir es =>
      match assoc s es with
      | Some child =>
          match put child r x with
          | Some child' => Some (Dir (setEntry s child' es))
          | None => None
          end
      | None => None
      end
  end.

(** Creates the directories of [segs] that are missing; fails on a file in
    the way. *)
Fixpoint mkdirSegments (n : node) (segs : list jsstring) : option node :=
  match n with
  | File _ => None
  | Dir es =>
      match segs with
      | [] => Some n
      | s :: r =>
          match mkdirSegments (match assoc s es with
                               | Some child => child
                               | None => Dir []
                               end) r with
          | Some child' => Some (Dir (setEntry s child' es))
          | None => None
          end
      end
  end.

Fixpoint isPrefix (a b : list jsstring) : bool :=
  match a, b with
  | [], _ => true
  | x :: a', y :: b' => string_eqb x y && isPrefix a' b'
  | _ :: _, [] => false
  end.

Fixpoint segments_eqb (a b : list jsstring) : bool :=
  match a, b with
  | [], [] => true
  | x :: a', y :: b' => string_eqb x y && segments_eqb a' b'
  | _, _ => false
  end.

Definition fs := node.

(** [fs.access(path)]: does the path exist. *)
Definition access (t : fs) (path : jsstring) : bool :=
  match resolve path with
  | Some segs => match get t segs with Some _ => true | None => false end
  | None => false
  end.

(** [fs.mkdir(path, { recursive: true })]. *)
Definition mkdir (t : fs) (path : jsstring) : option fs :=
  match resolve path with
  | Some segs => mkdirSegments t segs
  | None => None
  end.

(** [fs.readdir(path)]: the names, in directory order. *)
Definition readdir (t : fs) (path : jsstring) : option (list jsstring) :=
  match resolve path with
  | Some segs => match get t segs with
                 | Some (Dir es) => Some (map fst es)
                 | _ => None
                 end
  | None => None
  end.

(** [fs.rmdir(path)]: an empty directory other than the root. *)
Definition rmdir (t : fs) (path : jsstring) : option fs :=
  match resolve path with
  | Some segs => match get t segs with
                 | Some (Dir []) => match cut t segs with
                                    | Some (_, t') => Some t'
                                    | None => None
                                    end
                 | _ => None
                 end
  | None => None
  end.

(** [fs.readFile(path)]. *)
Definition readFile (t : fs) (path : jsstring) : option content :=
  match resolve path with
  | Some segs => match get t segs with
                 | Some (File c) => Some c
                 | _ => None
                 end
  | None => None
  end.

(** [fs.rename(oldPath, newPath)], as rename(2): the source has to exist and
    must not be moved into itself; a file may take the place of a file and a
    directory that of an empty directory; the parent of the target has to
    exist. *)
Definition rename (t : fs) (oldPath newPath : jsstring) : option fs :=
  match resolve oldPath, resolve newPath with
  | Some so, Some sn =>
      match get t so with
      | None => None
      | Some src =>
          if segments_eqb so sn then Some t
          else if isPrefix so sn then None
          else
            let allowed :=
              match get t sn, src with
              | None, _ => true
              | Some (File _), File _ => true
              | Some (Dir []), Dir _ => true
              | Some _, _ => false
              end in
            if allowed then
              match cut t so with
              | Some (x, t') => put t' sn x
              | None => None
              end
            else None
      end
  | _, _ => None
  end.

(** The regular files of a tree, by content. *)
Fixpoint files (n : node) : list content :=
  match n with
  | File c => [c]
  | Dir es => flat_map (fun e => let '(_, child) := e in files child) es
  end.

(** No directory of the tree lists a name twice. *)
Fixpoint uniqueNames (es : list (jsstring * node)) : bool :=
  match es with
  | [] => true
  | (k, _) :: r => negb (existsb (fun e => string_eqb (fst e) k) r) && uniqueNames r
  end.

Fixpoint wellFormed (n : node) : bool :=
  match n with
  | File _ => true
  | Dir es =>
      uniqueNames es && forallb (fun e => let '(_, child) := e in wellFormed child) es
  end.

Definition childrenOk (es : list (jsstring * node)) : bool :=
  forallb (fun e => let '(_, child) := e in wellFormed child) es.

(** The regular files below the entries of a directory. *)
Definition filesOf (es : list (jsstring * node)) : list content :=
  flat_map (fun e => let '(_, child) := e in files child) es.

(** [JSON.parse(content)]. *)
Definition JSON_parse (c : content) : option json :=
  match c with
  | Json v => Some v
  | Raw _ => None
  end.

End FS.

(** ** The scan handler ([POST /api/scan])

    The statistics leave out the two sums of floating-point numbers
    ([totalSize], [totalDuration]); a plan leaves out the two relative paths
    that are only displayed ([oldPath], [newPath]). *)

Record formatConfig := {
  folderFormat : jsstring;
  fileFormat : jsstring
}.

Inductive moveType := audio | other.

Record fileMove := {
  oldName : jsstring;
  newName : jsstring;
  oldPath : jsstring;
  type : moveType
}.

Record book := {
  title : jsstring;
  author : jsstring;
  movePlan : list fileMove;
  bookDir : jsstring;
  targetDir : jsstring
}.

(** A [Set] of strings, in insertion order. *)
Definition has (x : jsstring) (s : list jsstring) : bool := existsb (string_eqb x) s.
Definition add (x : jsstring) (s : list jsstring) : list jsstring :=
  if has x s then s else s ++ [x].

Record stats := {
  books : N;
  authors : list jsstring;
  narrators : list jsstring;
  series : list jsstring;
  standaloneCount : N
}.

Definition emptyStats : stats :=
  {| books := 0; authors := []; narrators := []; series := []; standaloneCount := 0 |}.

Definition audioExtensions : list jsstring :=
  [str ".mp3"; str ".m4b"; str ".m4a"; str ".flac"; str ".ogg"; str ".opus"; str ".aac"].

Definition isAudio (f : jsstring) : bool :=
  has (toLowerCase (Path.extname f)) audioExtensions.

Definition hash : char := 35%N.

(** Lines 134-157, the two variables [seriesTitle] and [bookNumber]. *)
Definition parseSeries (seriesField : jsstring) : jsstring * jsstring :=
  if nonempty seriesField then
    if includes hash seriesField then
      let parts := split hash seriesField in
      let seriesTitle := cleanFilename (nth 0 parts []) in
      let rawNum := trim (nth 1 parts []) in
      let bookNumber :=
        if includes Path.dot rawNum then
          let nParts := split Path.dot rawNum in
          padStart2 (nth 0 nParts []) ++ [Path.dot] ++ nth 1 nParts []
        else if negb (isNaN rawNum) then padStart2 rawNum
        else rawNum in
      (seriesTitle, bookNumber)
    else (cleanFilename seriesField, [])
  else ([], []).

(** Lines 137-157, the statistics: the series is recorded under its title,
    an item without a series field is counted as standalone. *)
Definition countSeries (seriesField : jsstring) (st : stats) : stats :=
  if nonempty seriesField then
    {| books := books st; authors := authors st; narrators := narrators st;
       series := add (fst (parseSeries seriesField)) (series st);
       standaloneCount := standaloneCount st |}
  else
    {| books := books st; authors := authors st; narrators := narrators st;
       series := series st;
       standaloneCount := standaloneCount st + 1 |}.

(** Lines 165-171. *)
Definition buildTargetPath (cfg : formatConfig) (libraryPath cleanAuthor
  seriesTitle bookNumber cleanTitle : jsstring) : jsstring :=
  if string_eqb (folderFormat cfg) (str "author-series-book") && nonempty seriesTitle then
    let folderLabel := if nonempty bookNumber then bookNumber ++ str " " ++ cleanTitle
                       else cleanTitle in
    Path.join [libraryPath; cleanAuthor; seriesTitle; folderLabel]
  else Path.join [libraryPath; cleanAuthor; cleanTitle].

(** Lines 183-189. *)
Definition sortAudio (allFiles : list jsstring) : list jsstring :=
  sort compareFn (filter isAudio allFiles).

(** The suffix [numAudio > 1 ? ' - ' + String(i + 1).padStart(2, '0') : '']. *)
Definition trackSuffix (numAudio i : nat) : jsstring :=
  if (1 <? numAudio)%nat then
    str " - " ++ padStart2 (number_toString (Int (Z.of_nat (i + 1))))
  else [].

(** Lines 196-211, the name before it is cleaned. *)
Definition deriveName (cfg : formatConfig) (cleanAuthor seriesTitle bookNumber
  cleanTitle : jsstring) (numAudio : nat) (audioFile : jsstring) (i : nat)
  : jsstring :=
  if string_eqb (fileFormat cfg) (str "full-details") then
    let nameParts :=
      [cleanAuthor]
      ++ (if nonempty seriesTitle then [trim (seriesTitle ++ str " " ++ bookNumber)] else [])
      ++ [cleanTitle] in
    let baseName := JS.join (str " - ") (filter nonempty nameParts) in
    let ext := Path.extname audioFile in
    baseName ++ trackSuffix numAudio i ++ ext
  else if string_eqb (fileFormat cfg) (str "title-only") then
    let ext := Path.extname audioFile in
    cleanTitle ++ trackSuffix numAudio i ++ ext
  else audioFile.

(** Lines 195-219: [audioFiles.forEach((audioFile, i) => ...)]. *)
Fixpoint audioMoves (cfg : formatConfig) (cleanAuthor seriesTitle bookNumber
  cleanTitle bookDir : jsstring) (numAudio : nat) (audioFiles : list jsstring)
  (i : nat) : list fileMove :=
  match audioFiles with
  | [] => []
  | audioFile :: rest =>
      {| oldName := audioFile;
         newName := cleanFilename (deriveName cfg cleanAuthor seriesTitle
                                      bookNumber cleanTitle numAudio audioFile i);
         oldPath := Path.join [bookDir; audioFile];
         type := audio |}
      :: audioMoves cfg cleanAuthor seriesTitle bookNumber cleanTitle bookDir
                    numAudio rest (S i)
  end.

(** Lines 222-231. *)
Definition otherMoves (bookDir : jsstring) (allFiles audioFiles : list jsstring)
  : list fileMove :=
  map (fun f => {| oldName := f; newName := f;
                   oldPath := Path.join [bookDir; f]; type := other |})
      (filter (fun f => negb (has f audioFiles)) allFiles).

Definition buildMovePlan (cfg : formatConfig) (cleanAuthor seriesTitle
  bookNumber cleanTitle bookDir : jsstring) (allFiles : list jsstring)
  : list fileMove :=
  let audioFiles := sortAudio allFiles in
  audioMoves cfg cleanAuthor seriesTitle bookNumber cleanTitle bookDir
             (List.length audioFiles) audioFiles 0
  ++ otherMoves bookDir allFiles audioFiles.

(** Lines 234-235. *)
Definition hasChanges (bookDir targetPath : jsstring) (plan : list fileMove) : bool :=
  negb (string_eqb bookDir targetPath)
  || existsb (fun m => negb (string_eqb (oldName m) (newName m))) plan.

Definition orDefault (value default : jsstring) : jsstring :=
  if nonempty value then value else default.

(** The metadata fields of an item (lines 125-128). *)
Record fields := {
  f_author : jsstring;
  f_bookTitle : jsstring;
  f_narrator : jsstring;
  f_seriesField : jsstring
}.

Definition readFields (data : json) : option fields :=
  match getMetadataValue data [str "authorName"; str "author"; str "authors"; str "bookAuthor"],
        getMetadataValue data [str "title"; str "bookTitle"],
        getMetadataValue data [str "narratorName"; str "narrator"; str "narrators"],
        getMetadataValue data [str "seriesName"; str "series"] with
  | Some a, Some t, Some n, Some s =>
      Some {| f_author := orDefault a (str "Unknown Author");
              f_bookTitle := orDefault t (str "Unknown Title");
              f_narrator := orDefault n (str "Unknown Narrator");
              f_seriesField := orDefault s [] |}
  | _, _, _, _ => None
  end.

(** The plan of an item whose fields and directory listing were read
    (lines 161-246). *)
Definition planItem (cfg : formatConfig) (libraryPath : jsstring) (f : fields)
  (bookDir : jsstring) (allFiles : list jsstring) : book :=
  let '(seriesTitle, bookNumber) := parseSeries (f_seriesField f) in
  let cleanAuthor := cleanFilename (f_author f) in
  let cleanTitle := cleanFilename (f_bookTitle f) in
  {| title := f_bookTitle f;
     author := f_author f;
     movePlan := buildMovePlan cfg cleanAuthor seriesTitle bookNumber cleanTitle
                               bookDir allFiles;
     bookDir := bookDir;
     targetDir := buildTargetPath cfg libraryPath cleanAuthor seriesTitle
                                  bookNumber cleanTitle |}.

Definition bookHasChanges (b : book) : bool :=
  hasChanges (bookDir b) (targetDir b) (movePlan b).

(** Lines 131-157: the statistics of an item whose fields were read. *)
Definition countItem (f : fields) (st : stats) : stats :=
  let st := {| books := books st;
               authors := add (f_author f) (authors st);
               narrators := if string_eqb (f_narrator f) (str "Unknown Narrator")
                            then narrators st
                            else add (f_narrator f) (narrators st);
               series := series st;
               standaloneCount := standaloneCount st |} in
  countSeries (f_seriesField f) st.

Definition incrBooks (st : stats) : stats :=
  {| books := books st + 1; authors := authors st; narrators := narrators st;
     series := series st; standaloneCount := standaloneCount st |}.

(** The body of the loop over the metadata files (lines 118-251).  Whatever
    is thrown is caught and the item is left at that point: an unreadable or
    malformed file changes nothing, a [null] record is counted as a book
    only, an unreadable directory keeps the item out of the plans. *)
Definition scanItem (t : FS.fs) (cfg : formatConfig) (libraryPath : jsstring)
  (acc : stats * list book) (metaPath : jsstring) : stats * list book :=
  let '(st, plannedMoves) := acc in
  match FS.readFile t metaPath with
  | None => acc
  | Some content =>
      match FS.JSON_parse content with
      | None => acc
      | Some data =>
          let st := incrBooks st in
          match readFields data with
          | None => (st, plannedMoves)
          | Some f =>
              let st := countItem f st in
              let bookDir := Path.dirname metaPath in
              match FS.readdir t bookDir with
              | None => (st, plannedMoves)
              | Some allFiles =>
                  let b := planItem cfg libraryPath f bookDir allFiles in
                  if bookHasChanges b then (st, plannedMoves ++ [b])
                  else (st, plannedMoves)
              end
          end
      end
  end.

(** [findMetadataFiles]: the walk follows the tree; a directory entry is
    named by [path.join(dir, entry.name)]. *)
Fixpoint walk (dir : jsstring) (n : FS.node) : list jsstring :=
  match n with
  | FS.File _ => []
  | FS.Dir es =>
      flat_map (fun e =>
        let '(name, child) := e in
        let fullPath := Path.join [dir; name] in
        match child with
        | FS.Dir _ => walk fullPath child
        | FS.File _ =>
            if string_eqb name (str "metadata.json") then [fullPath] else []
        end) es
  end.

Definition findMetadataFiles (t : FS.fs) (dir : jsstring) : list jsstring :=
  match FS.resolve dir with
  | Some segs => match FS.get t segs with
                 | Some n => walk dir n
                 | None => []
                 end
  | None => []
  end.

Inductive response (A : Type) :=
| Ok (body : A)
| Error (status : N).
Arguments Ok {A} body.
Arguments Error {A} status.

Record scanResult := {
  sr_stats : stats;
  plannedMoves : list book
}.

(** Lines 102-251: the walk and the loop over the metadata files. *)
Definition scanLibrary (t : FS.fs) (libraryPath : jsstring) (cfg : formatConfig)
  : stats * list book :=
  let metadataFiles := findMetadataFiles t libraryPath in
  fold_left (scanItem t cfg libraryPath) metadataFiles (emptyStats, []).

Definition scan (t : FS.fs) (libraryPath : jsstring) (cfg : formatConfig)
  : response scanResult :=
  match libraryPath with
  | [] => Error 400
  | _ =>
      if FS.access t libraryPath then
        let '(st, plans) := scanLibrary t libraryPath cfg in
        Ok {| sr_stats := st; plannedMoves := plans |}
      else Error 500
  end.

(** ** The execute handler ([POST /api/execute])

    The handler changes the file system, fills [results] and writes to the
    error log; the three are threaded through the loops. *)

Record results := {
  applied : N;
  errors : N;
  collisions : list jsstring
}.

(** What [console.error] is called with. *)
Inductive logEntry :=
| ErrorMovingFile (oldName : jsstring)
| ErrorProcessingBook (title : jsstring).

Record execState := {
  disk : FS.fs;
  res : results;
  log : list logEntry
}.

Definition recordCollision (name : jsstring) (r : results) : results :=
  {| applied := applied r; errors := errors r;
     collisions := collisions r ++ [name] |}.

Definition recordError (r : results) : results :=
  {| applied := applied r; errors := errors r + 1; collisions := collisions r |}.

Definition recordApplied (r : results) : results :=
  {| applied := applied r + 1; errors := errors r; collisions := collisions r |}.

(** The body of the loop over [book.movePlan] (lines 292-314). *)
Definition moveFile (targetDir : jsstring) (st : execState) (fileMove : fileMove)
  : execState :=
  let newPath := Path.join [targetDir; newName fileMove] in
  if string_eqb (oldPath fileMove) newPath then st
  else if FS.access (disk st) newPath then
    {| disk := disk st;
       res := recordCollision (newName fileMove) (res st);
       log := log st |}
  else
    match FS.rename (disk st) (oldPath fileMove) newPath with
    | Some disk' => {| disk := disk'; res := res st; log := log st |}
    | None =>
        {| disk := disk st;
           res := recordError (res st);
           log := log st ++ [ErrorMovingFile (oldName fileMove)] |}
    end.

(** Lines 316-324: the old directory is removed if its listing is empty;
    whatever fails is ignored. *)
Definition removeIfEmpty (t : FS.fs) (bookDir : jsstring) : FS.fs :=
  match FS.readdir t bookDir with
  | Some [] => match FS.rmdir t bookDir with
               | Some t' => t'
               | None => t
               end
  | _ => t
  end.

(** The body of the loop over [plannedMoves] (lines 286-331). *)
Definition executeBook (st : execState) (b : book) : execState :=
  match FS.mkdir (disk st) (targetDir b) with
  | None =>
      {| disk := disk st;
         res := recordError (res st);
         log := log st ++ [ErrorProcessingBook (title b)] |}
  | Some disk1 =>
      let st2 := fold_left (moveFile (targetDir b)) (movePlan b)
                           {| disk := disk1; res := res st; log := log st |} in
      {| disk := removeIfEmpty (disk st2) (bookDir b);
         res := recordApplied (res st2);
         log := log st2 |}
  end.

Definition initialResults : results :=
  {| applied := 0; errors := 0; collisions := [] |}.

Definition execute (t : FS.fs) (plannedMoves : list book) : execState :=
  fold_left executeBook plannedMoves
            {| disk := t; res := initialResults; log := [] |}.

(** ** Vocabulary of the properties *)

(** A character the sanitizer keeps. *)
Definition valid (c : char) : bool := negb (existsb (char_eqb c) invalidChars).

(** Every white space character is a space and no two of them are adjacent;
    [prevSpace] tells that the character before the string was one. *)
Fixpoint singleSpaced (prevSpace : bool) (s : jsstring) : bool :=
  match s with
  | [] => true
  | c :: r =>
      if is_space c then (c =? 32)%N && negb prevSpace && singleSpaced true r
      else singleSpaced false r
  end.

(** The shape of a sanitized name. *)
Definition sanitized (s : jsstring) : Prop :=
  (forall c, In c s -> valid c = true)
  /\ singleSpaced false s = true
  /\ (forall c r, s = c :: r -> is_space c = false)
  /\ (forall c r, s = r ++ [c] -> is_space c = false).

(** The text of [s] before the first [c], and the text after it. *)
Definition beforeFirst (c : char) (s : jsstring) : jsstring :=
  takeWhile (fun x => negb (char_eqb x c)) s.
Definition afterFirst (c : char) (s : jsstring) : jsstring :=
  tl (dropWhile (fun x => negb (char_eqb x c)) s).

Definition purelyNumeric (s : jsstring) : bool := nonempty s && all_digits s.

(** The series rule in the words of the specification: one split at the
    first [#], the number being all that follows it; one split at the first
    dot, the fraction being all that follows it. *)
Definition spec_bookNumber (raw : jsstring) : jsstring :=
  if includes Path.dot raw then
    padStart2 (beforeFirst Path.dot raw) ++ [Path.dot] ++ afterFirst Path.dot raw
  else if purelyNumeric raw then padStart2 raw
  else raw.

Definition spec_parseSeries (seriesField : jsstring) : jsstring * jsstring :=
  if includes hash seriesField then
    (cleanFilename (beforeFirst hash seriesField),
     spec_bookNumber (trim (afterFirst hash seriesField)))
  else (cleanFilename seriesField, []).

(** The same rule with the three differences the code shows: the number
    stops at the next [#], the fraction stops at the next dot, and a missing
    number is padded like a numeric one. *)
Definition code_bookNumber (raw : jsstring) : jsstring :=
  if includes Path.dot raw then
    padStart2 (beforeFirst Path.dot raw) ++ [Path.dot]
    ++ beforeFirst Path.dot (afterFirst Path.dot raw)
  else if purelyNumeric raw || negb (nonempty raw) then padStart2 raw
  else raw.

Definition code_rawNumber (seriesField : jsstring) : jsstring :=
  trim (beforeFirst hash (afterFirst hash seriesField)).

(** The fields the scan reads for the item of a metadata file, when it gets
    that far, and the plan it computes for it. *)
Definition itemFields (t : FS.fs) (metaPath : jsstring) : option fields :=
  match FS.readFile t metaPath with
  | Some content => match FS.JSON_parse content with
                    | Some data => readFields data
                    | None => None
                    end
  | None => None
  end.

Definition itemPlan (t : FS.fs) (cfg : formatConfig) (libraryPath metaPath : jsstring)
  : option book :=
  match itemFields t metaPath with
  | Some f =>
      match FS.readdir t (Path.dirname metaPath) with
      | Some allFiles =>
          Some (planItem cfg libraryPath f (Path.dirname metaPath) allFiles)
      | None => None
      end
  | None => None
  end.

(** The item is one of those counted as standalone. *)
Definition standaloneField (t : FS.fs) (metaPath : jsstring) : bool :=
  match itemFields t metaPath with
  | Some f => negb (nonempty (f_seriesField f))
  | None => false
  end.

(** The item has a plan and the plan changes something. *)
Definition changedPlan (t : FS.fs) (cfg : formatConfig) (libraryPath metaPath : jsstring)
  : list book :=
  match itemPlan t cfg libraryPath metaPath with
  | Some b => if bookHasChanges b then [b] else []
  | None => []
  end.

(** ** Sample libraries *)

Module Sample.

Definition fullDetails : formatConfig :=
  {| folderFormat := str "author-series-book"; fileFormat := str "full-details" |}.

(** An item whose series field holds a number and no title. *)
Definition untitledSeries : json :=
  JObj [(str "authorName", JStr (str "A")); (str "title", JStr (str "T"));
        (str "series", JStr (str "#1"))].

Definition untitledSeriesDisk : FS.fs :=
  FS.Dir [(str "lib",
           FS.Dir [(str "X",
                    FS.Dir [(str "metadata.json", FS.File (FS.Json untitledSeries));
                            (str "a.mp3", FS.File (FS.Raw [1%N]))])])].

(** Two tracks of a book of a series. *)
Definition mistborn (seriesField bookTitle : string) : fields :=
  {| f_author := str "Brandon Sanderson"; f_bookTitle := str bookTitle;
     f_narrator := str "Michael Kramer"; f_seriesField := str seriesField |}.

Definition twoTracks : list jsstring :=
  [str "cover.jpg"; str "b.mp3"; str "metadata.json"; str "a.mp3"].

(** A library with one item to move, and a stray audio file where the item
    is to go. *)
Definition book1 : json :=
  JObj [(str "authorName", JStr (str "A")); (str "title", JStr (str "T"))].

Definition strayDisk : FS.fs :=
  FS.Dir [(str "lib",
           FS.Dir [(str "X",
                    FS.Dir [(str "metadata.json", FS.File (FS.Json book1));
                            (str "a.mp3", FS.File (FS.Raw [1%N]))]);
                   (str "A",
                    FS.Dir [(str "T",
                             FS.Dir [(str "old.mp3", FS.File (FS.Raw [2%N]))])])])].

(** The same library after the item was moved by hand under the name of a
    file that is already there. *)
Definition collidingDisk : FS.fs :=
  FS.Dir [(str "lib",
           FS.Dir [(str "X",
                    FS.Dir [(str "metadata.json", FS.File (FS.Json book1));
                            (str "a.mp3", FS.File (FS.Raw [1%N]))]);
                   (str "A",
                    FS.Dir [(str "T",
                             FS.Dir [(str "A - T.mp3", FS.File (FS.Raw [2%N]))])])])].

(** A library with one item of ten tracks. *)
Definition tenTracksDisk : FS.fs :=
  FS.Dir [(str "lib",
           FS.Dir [(str "X",
                    FS.Dir ((str "metadata.json", FS.File (FS.Json book1))
                            :: map (fun k => (str k, FS.File (FS.Raw [1%N])))
                                   ["01.mp3"; "02.mp3"; "03.mp3"; "04.mp3";
                                    "05.mp3"; "06.mp3"; "07.mp3"; "08.mp3";
                                    "09.mp3"; "10.mp3"]%string))])].

End Sample.

(** The planned moves of a response; none when the scan failed. *)
Definition plansOf (r : response scanResult) : list book :=
  match r with
  | Ok body => plannedMoves body
  | Error _ => []
  end.

(** The renames of a list of plans, old name and new name. *)
Definition renamesOf (plans : list book) : list (list (jsstring * jsstring)) :=
  map (fun b => map (fun m => (oldName m, newName m)) (movePlan b)) plans.

(** The full-details name in the words of the specification, for the
    position [i] (from 1) of an item with several audio files, and the name
    of the only audio file of an item. *)
Definition spec_baseName (author seriesTitle bookNumber title : jsstring) : jsstring :=
  JS.join (str " - ")
    (filter nonempty
       ([author]
        ++ (if nonempty seriesTitle then [trim (seriesTitle ++ str " " ++ bookNumber)]
            else [])
        ++ [title])).

Definition spec_fullDetailsName (author seriesTitle bookNumber title : jsstring)
  (i : nat) (ext : jsstring) : jsstring :=
  spec_baseName author seriesTitle bookNumber title
  ++ str " - " ++ padStart2 (number_toString (Int (Z.of_nat i))) ++ ext.

Definition spec_singleName (cfg : formatConfig) (author seriesTitle bookNumber
  title audioFile : jsstring) : jsstring :=
  if string_eqb (fileFormat cfg) (str "full-details") then
    spec_baseName author seriesTitle bookNumber title ++ Path.extname audioFile
  else if string_eqb (fileFormat cfg) (str "title-only") then
    title ++ Path.extname audioFile
  else audioFile.

(** ** Vocabulary of the executor's accounting *)

(** The states in which the plans of a run are taken up. *)
Fixpoint trajectory (st : execState) (plans : list book)
  : list (execState * book) :=
  match plans with
  | [] => []
  | b :: rest => (st, b) :: trajectory (executeBook st b) rest
  end.

(** The target directory of the plan could be created. *)
Definition created (step : execState * book) : bool :=
  match FS.mkdir (disk (fst step)) (targetDir (snd step)) with
  | Some _ => true
  | None => false
  end.

Definition isBookError (e : logEntry) : bool :=
  match e with ErrorProcessingBook _ => true | ErrorMovingFile _ => false end.

Definition isMoveError (e : logEntry) : bool :=
  match e with ErrorMovingFile _ => true | ErrorProcessingBook _ => false end.

Definition count {A} (p : A -> bool) (l : list A) : N :=
  N.of_nat (List.length (filter p l)).

Definition initialState (t : FS.fs) : execState :=
  {| disk := t; res := initialResults; log := [] |}.

(** The step from [st] to [st'] keeps every regular file of a well-formed
    tree, and the tree well formed. *)
Definition keepsFiles (st st' : execState) : Prop :=
  FS.wellFormed (disk st) = true ->
  Permutation (FS.files (disk st')) (FS.files (disk st))
  /\ FS.wellFormed (disk st') = true.

(** ** Vocabulary of the order of the audio files *)

(** The string form of the sort key of a file name. *)
Definition keyString (a : jsstring) : jsstring := array_toString (naturalSortKey a).

Definition keyLe (a b : jsstring) : Prop := string_ltb (keyString b) (keyString a) = false.
Definition keyLt (a b : jsstring) : Prop := string_ltb (keyString a) (keyString b) = true.

(** ** Vocabulary of the planner's fixed point *)

(** A character that is kept as it is by the sanitizer and is no white
    space. *)
Definition plain (c : char) : bool := valid c && negb (is_space c).

(** A character of an audio extension, behind its dot. *)
Definition extChar (c : char) : bool :=
  plain c && Path.not_slash c && Path.not_dot c.

(** The sanitized form of a text that is followed by plain characters: its
    trailing space is kept. *)
Definition core (u : jsstring) : jsstring :=
  dropWhile is_space (collapseSpaces false (filter valid u)).

(** The text that precedes the extension in the new name, under the two file
    formats that build one. *)
Definition stemOf (cfg : formatConfig) (cleanAuthor seriesTitle bookNumber
  cleanTitle : jsstring) : jsstring :=
  if string_eqb (fileFormat cfg) (str "full-details") then
    spec_baseName cleanAuthor seriesTitle bookNumber cleanTitle
  else cleanTitle.

(** The file format is one of the two that build a name. *)
Definition buildsNames (cfg : formatConfig) : bool :=
  string_eqb (fileFormat cfg) (str "full-details")
  || string_eqb (fileFormat cfg) (str "title-only").

(** The two digits of a track number. *)
Definition trackDigits (k : nat) : jsstring :=
  padStart2 (number_toString (Int (Z.of_nat k))).

(** The part of the sort key a run of the file name gives. *)
Definition keyPartOf (part : jsstring) : keyPart :=
  if isNaN part then KText (toLowerCase part) else KNumber (parseInt part).

(** The new name of a track: what is left of the stem and of the separator,
    the two digits and the extension. *)
Definition trackName (z : jsstring) (k : nat) (ext : jsstring) : jsstring :=
  (z ++ str "- ") ++ trackDigits k ++ ext.

(** The new name the scan gives the audio file [a] at index [i] of [n]. *)
Definition newNameOf (cfg : formatConfig) (cleanAuthor seriesTitle bookNumber
  cleanTitle : jsstring) (n : nat) (a : jsstring) (i : nat) : jsstring :=
  cleanFilename (deriveName cfg cleanAuthor seriesTitle bookNumber cleanTitle n a i).


(** ** Vocabulary of the further properties *)

(** A character the sanitizer does not keep as a character of the name: an
    invalid character or white space. *)
Definition dropped (c : char) : bool := negb (valid c) || is_space c.

(** No leading and no trailing white space. *)
Definition trimmed (s : jsstring) : Prop :=
  (forall c r, s = c :: r -> is_space c = false)
  /\ (forall c r, s = r ++ [c] -> is_space c = false).

Definition comma : char := 44%N.



(** The statistics a scan keeps at every step. *)
Definition statsOk (st : stats) : Prop :=
  NoDup (authors st) /\ NoDup (narrators st) /\ NoDup (series st)
  /\ ~ In (str "Unknown Narrator") (narrators st)
  /\ (N.of_nat (List.length (authors st)) <= books st)%N
  /\ (N.of_nat (List.length (narrators st)) <= books st)%N
  /\ (N.of_nat (List.length (series st)) + standaloneCount st <= books st)%N.

(** ** Vocabulary of the walk over the library *)

(** The node [target] is found from [n] by going down the entries named
    [names], one after the other. *)
Fixpoint reach (n : FS.node) (names : list jsstring) (target : FS.node) : Prop :=
  match names with
  | [] => target = n
  | s :: r =>
      match n with
      | FS.Dir es => exists child, In (s, child) es /\ reach child r target
      | FS.File _ => False
      end
  end.

(** [path.join] applied once for every name on the way down. *)
Definition joinAll (dir : jsstring) (names : list jsstring) : jsstring :=
  fold_left (fun d name => Path.join [d; name]) names dir.


(** * Properties *)

(** ** Strings *)

Lemma string_eqb_eq (a b : jsstring) : string_eqb a b = true <-> a = b.
Proof.
  revert b; induction a as [|x a IH]; intros [|y b]; simpl; split;
    try congruence; try reflexivity.
  - intros H. apply andb_true_iff in H as [Hx Hr].
    apply N.eqb_eq in Hx. apply IH in Hr. congruence.
  - intros H. injection H as -> ->. unfold char_eqb.
    rewrite N.eqb_refl. simpl. now apply IH.
Qed.

Lemma string_eqb_refl (a : jsstring) : string_eqb a a = true.
Proof. now apply string_eqb_eq. Qed.

Lemma string_eqb_neq (a b : jsstring) : string_eqb a b = false <-> a <> b.
Proof.
  split.
  - intros H E. apply string_eqb_eq in E. congruence.
  - intros H. destruct (string_eqb a b) eqn:E; [|reflexivity].
    apply string_eqb_eq in E. contradiction.
Qed.

Lemma dropWhile_suffix (p : char -> bool) (s : jsstring) :
  exists w, s = w ++ dropWhile p s /\ forallb p w = true.
Proof.
  induction s as [|c r [w [E F]]]; simpl.
  - exists []. now split.
  - destruct (p c) eqn:Hc.
    + exists (c :: w). simpl. rewrite Hc, F. split; [congruence|reflexivity].
    + exists []. now split.
Qed.

Lemma dropWhile_head (p : char -> bool) (s : jsstring) (c : char) (r : jsstring) :
  dropWhile p s = c :: r -> p c = false.
Proof.
  induction s as [|x s IH]; simpl; [discriminate|].
  destruct (p x) eqn:Hx; [exact IH|].
  intros H. injection H as -> _. exact Hx.
Qed.

Lemma dropWhile_fixed (p : char -> bool) (s : jsstring) :
  (forall c r, s = c :: r -> p c = false) -> dropWhile p s = s.
Proof.
  destruct s as [|c r]; simpl; [reflexivity|].
  intros H. now rewrite (H c r eq_refl).
Qed.

Lemma trimEnd_prefix (s : jsstring) :
  exists w, s = trimEnd s ++ w /\ forallb is_space w = true.
Proof.
  unfold trimEnd. destruct (dropWhile_suffix is_space (rev s)) as [w [E F]].
  exists (rev w). split.
  - apply (f_equal (@rev char)) in E.
    rewrite rev_involutive, rev_app_distr in E. exact E.
  - rewrite forallb_forall in *. intros c Hc. apply F. now apply in_rev.
Qed.

Lemma trimEnd_last (s r : jsstring) (c : char) :
  trimEnd s = r ++ [c] -> is_space c = false.
Proof.
  unfold trimEnd. intros H.
  apply (f_equal (@rev char)) in H. rewrite rev_involutive, rev_app_distr in H.
  simpl in H. eapply dropWhile_head; eauto.
Qed.

Lemma trimEnd_fixed (s : jsstring) :
  (forall c r, s = r ++ [c] -> is_space c = false) -> trimEnd s = s.
Proof.
  intros H. unfold trimEnd. rewrite dropWhile_fixed.
  - apply rev_involutive.
  - intros c r E. apply (H c (rev r)).
    rewrite <- (rev_involutive s), E. reflexivity.
Qed.

Lemma trim_In (s : jsstring) (c : char) : In c (trim s) -> In c s.
Proof.
  unfold trim, trimStart. intros H.
  destruct (trimEnd_prefix (dropWhile is_space s)) as [w [E _]].
  destruct (dropWhile_suffix is_space s) as [v [E' _]].
  rewrite E'. apply in_or_app. right. rewrite E. apply in_or_app. now left.
Qed.

(** ** The name sanitizer *)

Section Sanitizer.

Lemma removeAll_filter (c : char) (p : char -> bool) (s : jsstring) :
  removeAll c (filter p s) = filter (fun x => p x && negb (char_eqb x c)) s.
Proof.
  unfold removeAll. induction s as [|x s IH]; simpl; [reflexivity|].
  destruct (p x); simpl; [|exact IH].
  destruct (char_eqb x c); simpl; now rewrite IH.
Qed.

Lemma strip_filter (s : jsstring) :
  fold_left (fun cleaned c => removeAll c cleaned) invalidChars s = filter valid s.
Proof.
  unfold invalidChars. cbn [fold_left].
  change (removeAll 60%N s) with (filter (fun x => negb (char_eqb x 60%N)) s).
  rewrite !removeAll_filter.
  apply filter_ext. intros x. unfold valid, invalidChars. cbn [existsb].
  repeat match goal with
         | |- context [char_eqb x ?k] => destruct (char_eqb x k)
         end; reflexivity.
Qed.

Lemma valid_space (c : char) : is_space c = true -> valid c = true.
Proof.
  unfold is_space, valid, invalidChars, char_eqb. cbn [existsb].
  intros H.
  repeat match goal with
         | |- context [(c =? ?k)%N] =>
             destruct (N.eqb_spec c k) as [->|?]; [vm_compute in H; discriminate|]
         end.
  reflexivity.
Qed.

Lemma collapse_In (b : bool) (s : jsstring) (c : char) :
  In c (collapseSpaces b s) -> c = 32%N \/ In c s.
Proof.
  revert b; induction s as [|x s IH]; intros b; simpl; [tauto|].
  destruct (is_space x); [destruct b|]; simpl; intros H.
  - destruct (IH _ H); auto.
  - destruct H as [<-|H]; auto. destruct (IH _ H); auto.
  - destruct H as [<-|H]; auto. destruct (IH _ H); auto.
Qed.

Lemma collapse_singleSpaced (b : bool) (s : jsstring) :
  singleSpaced false (collapseSpaces b s) = true
  /\ (b = true -> singleSpaced true (collapseSpaces b s) = true).
Proof.
  revert b; induction s as [|x s IH]; intros b; simpl; [auto|].
  destruct (is_space x) eqn:Hx.
  - destruct b.
    + apply IH.
    + split; [|discriminate]. simpl.
      destruct (IH true) as [_ H]. now rewrite H.
  - simpl. rewrite Hx. destruct (IH false) as [H _]. auto.
Qed.

Lemma singleSpaced_weaken (b : bool) (s : jsstring) :
  singleSpaced b s = true -> singleSpaced false s = true.
Proof.
  destruct s as [|c r]; simpl; [reflexivity|].
  destruct (is_space c); [|tauto].
  destruct b; simpl; [|tauto]. rewrite andb_false_r. discriminate.
Qed.

Lemma singleSpaced_app (b : bool) (u v : jsstring) :
  singleSpaced b (u ++ v) = true ->
  singleSpaced b u = true /\ singleSpaced false v = true.
Proof.
  revert b; induction u as [|c u IH]; intros b; simpl.
  - intros H. split; [reflexivity|]. eapply singleSpaced_weaken; eauto.
  - destruct (is_space c).
    + intros H. apply andb_true_iff in H as [H1 H2].
      destruct (IH _ H2) as [H3 H4]. now rewrite H1, H3.
    + apply IH.
Qed.

Lemma collapse_fixed (b : bool) (s : jsstring) :
  singleSpaced b s = true -> collapseSpaces b s = s.
Proof.
  revert b; induction s as [|c s IH]; intros b; simpl; [reflexivity|].
  destruct (is_space c).
  - intros H. apply andb_true_iff in H as [H1 H2].
    apply andb_true_iff in H1 as [H0 H1].
    apply N.eqb_eq in H0. destruct b; [discriminate|].
    now rewrite IH, H0.
  - intros H. now rewrite IH.
Qed.

Lemma trim_singleSpaced (s : jsstring) :
  singleSpaced false s = true -> singleSpaced false (trim s) = true.
Proof.
  unfold trim, trimStart. intros H.
  destruct (dropWhile_suffix is_space s) as [v [E _]].
  destruct (trimEnd_prefix (dropWhile is_space s)) as [w [E' _]].
  rewrite E in H. apply singleSpaced_app in H as [_ H].
  rewrite E' in H. now apply singleSpaced_app in H as [H _].
Qed.

Lemma trim_first (s r : jsstring) (c : char) :
  trim s = c :: r -> is_space c = false.
Proof.
  unfold trim, trimStart. intros H.
  destruct (trimEnd_prefix (dropWhile is_space s)) as [w [E _]].
  rewrite H in E. simpl in E. apply dropWhile_head in E. exact E.
Qed.

Lemma trim_fixed (s : jsstring) :
  (forall c r, s = c :: r -> is_space c = false) ->
  (forall c r, s = r ++ [c] -> is_space c = false) ->
  trim s = s.
Proof.
  intros H1 H2. unfold trim, trimStart.
  rewrite dropWhile_fixed by exact H1. now apply trimEnd_fixed.
Qed.

Lemma cleanFilename_sanitized (x : jsstring) : sanitized (cleanFilename x).
Proof.
  unfold sanitized, cleanFilename. destruct x as [|c0 x0].
  { repeat split; try (intros; contradiction); try reflexivity.
    - intros c r H. discriminate.
    - intros c [|? ?] H; discriminate. }
  set (x := c0 :: x0). rewrite strip_filter. repeat split.
  - intros c H. apply trim_In, collapse_In in H as [->|H]; [reflexivity|].
    now apply filter_In in H.
  - apply trim_singleSpaced, collapse_singleSpaced.
  - intros c r. apply trim_first.
  - intros c r. apply trimEnd_last.
Qed.

Lemma sanitized_fixed (y : jsstring) : sanitized y -> cleanFilename y = y.
Proof.
  intros (Hv & Hs & Hf & Hl). unfold cleanFilename.
  destruct y as [|c0 y0]; [reflexivity|].
  rewrite strip_filter.
  assert (E : filter valid (c0 :: y0) = c0 :: y0).
  { apply forallb_filter_id. apply forallb_forall. exact Hv. }
  rewrite E, collapse_fixed by exact Hs. now apply trim_fixed.
Qed.

End Sanitizer.

(** C7.  For every string [x], [cleanFilename x] holds none of the
    nine characters of [invalidChars] (the angle brackets, the colon, the
    double quote, the two slashes, the bar, the question mark and the
    star); its white space is made of single
    spaces only, none of them leading or trailing; and cleaning it again
    changes nothing. *)
Theorem C7_cleanFilename_sanitizes (x : jsstring) :
  (forall c, In c invalidChars -> ~ In c (cleanFilename x))
  /\ (forall c, In c (cleanFilename x) -> is_space c = true -> c = 32%N)
  /\ (forall u v a b, cleanFilename x = u ++ a :: b :: v ->
        is_space a = true -> is_space b = false)
  /\ (forall c r, cleanFilename x = c :: r -> is_space c = false)
  /\ (forall c r, cleanFilename x = r ++ [c] -> is_space c = false)
  /\ cleanFilename (cleanFilename x) = cleanFilename x.
Proof.
  pose proof (cleanFilename_sanitized x) as S.
  pose proof S as (Hv & Hs & Hf & Hl).
  repeat split; auto.
  - intros c Hc Hin. apply Hv in Hin. unfold valid in Hin.
    apply negb_true_iff in Hin.
    assert (existsb (char_eqb c) invalidChars = true); [|congruence].
    apply existsb_exists. exists c. split; [exact Hc|apply N.eqb_refl].
  - intros c Hin Hc. revert Hs Hin. generalize false.
    generalize (cleanFilename x) as l.
    induction l as [|y l IH]; intros b Hs Hin; [contradiction|].
    simpl in Hs. destruct Hin as [->|Hin].
    + rewrite Hc in Hs. apply andb_true_iff in Hs as [Hs _].
      apply andb_true_iff in Hs as [Hs _]. now apply N.eqb_eq.
    + destruct (is_space y); [|eauto].
      apply andb_true_iff in Hs as [_ Hs]. eauto.
  - intros u v a b E Ha. rewrite E in Hs.
    apply singleSpaced_app in Hs as [_ Hs]. simpl in Hs. rewrite Ha in Hs.
    destruct (is_space b); [|reflexivity].
    rewrite !andb_true_iff in Hs. simpl in Hs. intuition discriminate.
  - now apply sanitized_fixed.
Qed.

(** ** The natural sort comparator *)

(** C1.  On the list track2.mp3, track10.mp3, track1.mp3 the sort of the
    scan handler puts track10.mp3 before track2.mp3: the two keys are
    compared through their string forms, in which the digit runs are text.
    The result is not the natural order track1, track2, track10. *)
Theorem C1_sort_compares_key_strings :
  sortAudio [str "track2.mp3"; str "track10.mp3"; str "track1.mp3"]
  = [str "track1.mp3"; str "track10.mp3"; str "track2.mp3"]
  /\ sortAudio [str "track2.mp3"; str "track10.mp3"; str "track1.mp3"]
     <> [str "track1.mp3"; str "track2.mp3"; str "track10.mp3"]
  /\ naturalSortKey (str "track10.mp3")
     = [KText (str "track"); KNumber (Int 10); KText (str ".mp");
        KNumber (Int 3); KNumber NaN]
  /\ array_toString (naturalSortKey (str "track10.mp3")) = str "track,10,.mp,3,NaN"
  /\ array_toString (naturalSortKey (str "track2.mp3")) = str "track,2,.mp,3,NaN"
  /\ compareFn (str "track10.mp3") (str "track2.mp3") = (-1)%Z.
Proof.
  split; [vm_compute; reflexivity|].
  split; [vm_compute; discriminate|].
  repeat (split; [vm_compute; reflexivity|]).
  vm_compute. reflexivity.
Qed.

(** ** The series field *)

Section Series.

Lemma split_unfold (c : char) (s : jsstring) :
  split c s = beforeFirst c s
              :: (if includes c s then split c (afterFirst c s) else []).
Proof.
  unfold beforeFirst, afterFirst, includes.
  induction s as [|x s IH]; simpl; [reflexivity|].
  unfold char_eqb in *. rewrite (N.eqb_sym c x).
  destruct (N.eqb x c) eqn:E; simpl; [reflexivity|].
  rewrite IH. reflexivity.
Qed.

Lemma split_nth0 (c : char) (s : jsstring) :
  nth 0 (split c s) [] = beforeFirst c s.
Proof. now rewrite split_unfold. Qed.

Lemma split_nth1 (c : char) (s : jsstring) :
  includes c s = true ->
  nth 1 (split c s) [] = beforeFirst c (afterFirst c s).
Proof.
  intros H. rewrite split_unfold, H. simpl. now rewrite split_unfold.
Qed.

Lemma beforeFirst_all (c : char) (s : jsstring) :
  includes c s = false -> beforeFirst c s = s.
Proof.
  unfold includes, beforeFirst. induction s as [|x s IH]; simpl;
    [reflexivity|].
  unfold char_eqb in *. rewrite (N.eqb_sym c x).
  destruct (N.eqb x c); simpl; [discriminate|].
  intros H. now rewrite IH.
Qed.

Lemma padStart2_long (s : jsstring) :
  (2 <= List.length s)%nat -> padStart2 s = s.
Proof.
  intros H. unfold padStart2.
  replace (2 - List.length s)%nat with 0%nat by lia. reflexivity.
Qed.

Lemma isNaN_single (c : char) :
  is_space c = false -> isNaN [c] = negb (is_digit c).
Proof.
  intros H. unfold isNaN, trim, trimStart, trimEnd. simpl. rewrite H. simpl.
  rewrite H. simpl. unfold strNumericLiteral, strUnsignedDecimalLiteral.
  assert (I : string_eqb [c] (str "Infinity") = false)
    by (simpl; now rewrite andb_false_r).
  rewrite I. simpl.
  destruct (c =? 43)%N eqn:E1; [apply N.eqb_eq in E1; subst; reflexivity|].
  destruct (c =? 45)%N eqn:E2; [apply N.eqb_eq in E2; subst; reflexivity|].
  simpl. destruct (is_digit c) eqn:D; simpl; [reflexivity|].
  destruct (c =? 46)%N; reflexivity.
Qed.

(** What the handler does with a number that holds no dot. *)
Lemma undotted_bookNumber (raw : jsstring) :
  (forall c r, raw = c :: r -> is_space c = false) ->
  (if negb (isNaN raw) then padStart2 raw else raw)
  = (if purelyNumeric raw || negb (nonempty raw) then padStart2 raw else raw).
Proof.
  intros H. destruct raw as [|c [|d r]].
  - reflexivity.
  - rewrite isNaN_single by (eapply H; eauto).
    unfold purelyNumeric. simpl. rewrite andb_true_r, orb_false_r.
    now rewrite negb_involutive.
  - rewrite padStart2_long by (simpl; lia).
    now destruct (negb _), (_ || _).
Qed.

Lemma parseSeries_title (s : jsstring) :
  fst (parseSeries s) = cleanFilename (beforeFirst hash s).
Proof.
  unfold parseSeries. destruct (nonempty s) eqn:N.
  - destruct (includes hash s) eqn:H; cbn [fst].
    + now rewrite split_nth0.
    + now rewrite beforeFirst_all.
  - destruct s; [reflexivity|discriminate].
Qed.

End Series.

(** The claim of C4 as the specification words it fails on three kinds of
    series fields: a second [#], a second dot, and a missing number. *)
Lemma C4_counterexample :
  parseSeries (str "Saga #1 #2") = (str "Saga", str "01")
  /\ spec_parseSeries (str "Saga #1 #2") = (str "Saga", str "1 #2")
  /\ parseSeries (str "Saga #3.5.1") = (str "Saga", str "03.5")
  /\ spec_parseSeries (str "Saga #3.5.1") = (str "Saga", str "03.5.1")
  /\ parseSeries (str "Saga #") = (str "Saga", str "00")
  /\ spec_parseSeries (str "Saga #") = (str "Saga", [])
  /\ ~ (forall seriesField, seriesField <> [] ->
          parseSeries seriesField = spec_parseSeries seriesField).
Proof.
  repeat (split; [vm_compute; reflexivity|]).
  intros H.
  assert (N : str "Saga #3.5.1" <> []) by (vm_compute; discriminate).
  specialize (H _ N). vm_compute in H. discriminate H.
Qed.

(** C4, amended.  For every non-empty series field that holds a [#], the
    text before the first [#], sanitized, is the series title; the raw
    number is the text between the first [#] and the next one (or the end),
    trimmed; with a dot in it, the book number is the text before the first
    dot padded with zeros to width 2, a dot, and the text up to the next dot
    (or the end); without a dot it is padded to width 2 when it is purely
    numeric or empty, and kept otherwise.  A non-empty field without [#] is
    the series title, sanitized, and the book number is empty.  Where the
    field holds one [#] and its number at most one dot and is not empty,
    this is the rule of the specification. *)
Theorem C4_parseSeries_amended (seriesField : jsstring) :
  seriesField <> [] ->
  (includes hash seriesField = true ->
     parseSeries seriesField
     = (cleanFilename (beforeFirst hash seriesField),
        code_bookNumber (code_rawNumber seriesField)))
  /\ (includes hash seriesField = false ->
        parseSeries seriesField = (cleanFilename seriesField, []))
  /\ (includes hash (afterFirst hash seriesField) = false ->
      includes Path.dot (afterFirst Path.dot (trim (afterFirst hash seriesField))) = false ->
      trim (afterFirst hash seriesField) <> [] ->
        parseSeries seriesField = spec_parseSeries seriesField).
Proof.
  intros NE.
  assert (N : nonempty seriesField = true)
    by (destruct seriesField; [contradiction|reflexivity]).
  assert (Code : includes hash seriesField = true ->
     parseSeries seriesField
     = (cleanFilename (beforeFirst hash seriesField),
        code_bookNumber (code_rawNumber seriesField))).
  { intros H. unfold parseSeries. rewrite N, H.
    rewrite split_nth0, split_nth1 by exact H.
    unfold code_bookNumber, code_rawNumber.
    set (raw := trim (beforeFirst hash (afterFirst hash seriesField))).
    destruct (includes Path.dot raw) eqn:D.
    - now rewrite split_nth0, split_nth1 by exact D.
    - f_equal. apply undotted_bookNumber. intros c r. apply trim_first. }
  split; [exact Code|]. split.
  - intros H. unfold parseSeries. now rewrite N, H.
  - intros H1 H2 H3. unfold spec_parseSeries.
    destruct (includes hash seriesField) eqn:H.
    + rewrite Code by reflexivity. f_equal.
      unfold code_rawNumber.
      rewrite (beforeFirst_all _ _ H1). set (raw := trim (afterFirst hash seriesField)) in *.
      unfold code_bookNumber, spec_bookNumber.
      destruct (includes Path.dot raw).
      * now rewrite (beforeFirst_all _ _ H2).
      * destruct raw; [congruence|]. simpl. now rewrite orb_false_r.
    + unfold parseSeries. now rewrite N, H.
Qed.

Lemma C4_parseSeries_amended_witness :
  parseSeries (str "Mistborn #3.5") = (str "Mistborn", str "03.5")
  /\ parseSeries (str "Mistborn #1") = (str "Mistborn", str "01")
  /\ parseSeries (str "Mistborn #3.5") = spec_parseSeries (str "Mistborn #3.5").
Proof.
  assert (NE : forall s, nonempty s = true -> s <> []) by (intros [|c r] E; discriminate).
  split; [|split].
  - destruct (@C4_parseSeries_amended (str "Mistborn #3.5")) as (H & _).
    + apply NE. reflexivity.
    + rewrite H by reflexivity. reflexivity.
  - destruct (@C4_parseSeries_amended (str "Mistborn #1")) as (H & _).
    + apply NE. reflexivity.
    + rewrite H by reflexivity. reflexivity.
  - destruct (@C4_parseSeries_amended (str "Mistborn #3.5")) as (_ & _ & H).
    + apply NE. reflexivity.
    + apply H; [reflexivity|reflexivity|]. apply NE. reflexivity.
Defined.

(** ** The scan *)

Section Scan.

Variable t : FS.fs.
Variable cfg : formatConfig.
Variable libraryPath : jsstring.

Lemma scanItem_plans (acc : stats * list book) (metaPath : jsstring) :
  snd (scanItem t cfg libraryPath acc metaPath)
  = snd acc ++ changedPlan t cfg libraryPath metaPath.
Proof.
  unfold scanItem, changedPlan, itemPlan, itemFields. destruct acc as [st pl].
  destruct (FS.readFile t metaPath) as [content|]; simpl; [|now rewrite app_nil_r].
  destruct (FS.JSON_parse content) as [data|]; simpl; [|now rewrite app_nil_r].
  destruct (readFields data) as [f|]; simpl; [|now rewrite app_nil_r].
  destruct (FS.readdir t (Path.dirname metaPath)) as [allFiles|]; simpl;
    [|now rewrite app_nil_r].
  destruct (bookHasChanges _); simpl; [reflexivity|now rewrite app_nil_r].
Qed.

Lemma scanItem_standalone (acc : stats * list book) (metaPath : jsstring) :
  standaloneCount (fst (scanItem t cfg libraryPath acc metaPath))
  = (standaloneCount (fst acc)
     + if standaloneField t metaPath then 1 else 0)%N.
Proof.
  unfold scanItem, standaloneField, itemFields. destruct acc as [st pl].
  destruct (FS.readFile t metaPath) as [content|]; simpl; [|now rewrite N.add_0_r].
  destruct (FS.JSON_parse content) as [data|]; simpl; [|now rewrite N.add_0_r].
  destruct (readFields data) as [f|]; simpl; [|now rewrite N.add_0_r].
  assert (E : standaloneCount (countItem f (incrBooks st))
              = (standaloneCount st
                 + if negb (nonempty (f_seriesField f)) then 1 else 0)%N).
  { unfold countItem, countSeries.
    destruct (nonempty (f_seriesField f)); simpl; [now rewrite N.add_0_r|reflexivity]. }
  destruct (FS.readdir t (Path.dirname metaPath)) as [allFiles|]; simpl;
    [|exact E].
  destruct (bookHasChanges _); exact E.
Qed.

Lemma scan_fold_plans (paths : list jsstring) (acc : stats * list book) :
  snd (fold_left (scanItem t cfg libraryPath) paths acc)
  = snd acc ++ flat_map (changedPlan t cfg libraryPath) paths.
Proof.
  revert acc; induction paths as [|p paths IH]; intros acc; simpl.
  - now rewrite app_nil_r.
  - rewrite IH, scanItem_plans. now rewrite app_assoc.
Qed.

Lemma scan_fold_standalone (paths : list jsstring) (acc : stats * list book) :
  standaloneCount (fst (fold_left (scanItem t cfg libraryPath) paths acc))
  = (standaloneCount (fst acc)
     + N.of_nat (List.length (filter (standaloneField t) paths)))%N.
Proof.
  revert acc; induction paths as [|p paths IH]; intros acc; simpl.
  - now rewrite N.add_0_r.
  - rewrite IH, scanItem_standalone.
    destruct (standaloneField t p); simpl List.length; lia.
Qed.

End Scan.

Lemma hasChanges_spec (bookDir targetPath : jsstring) (plan : list fileMove) :
  hasChanges bookDir targetPath plan = true
  <-> bookDir <> targetPath
      \/ exists m, In m plan /\ oldName m <> newName m.
Proof.
  unfold hasChanges. rewrite orb_true_iff, negb_true_iff, string_eqb_neq.
  rewrite existsb_exists. split; intros [H|[m [Hin H]]]; auto; right; exists m;
    split; auto.
  - now apply negb_true_iff, string_eqb_neq in H.
  - now apply negb_true_iff, string_eqb_neq.
Qed.

(** C6.  A plan is among the planned moves of a scan exactly when it is the
    plan of one of the items found and its source directory differs from its
    target directory or one of its file moves has a new name that differs
    from the old one; the plan of an item that sits in its target directory
    under its target names is not reported; and the response of the scan
    carries these planned moves. *)
Theorem C6_reported_iff_changes (t : FS.fs) (libraryPath : jsstring)
  (cfg : formatConfig) (b : book) :
  (In b (snd (scanLibrary t libraryPath cfg))
   <-> exists metaPath,
         In metaPath (findMetadataFiles t libraryPath)
         /\ itemPlan t cfg libraryPath metaPath = Some b
         /\ (bookDir b <> targetDir b
             \/ exists m, In m (movePlan b) /\ oldName m <> newName m))
  /\ (bookDir b = targetDir b ->
      (forall m, In m (movePlan b) -> oldName m = newName m) ->
      ~ In b (snd (scanLibrary t libraryPath cfg)))
  /\ (forall result, scan t libraryPath cfg = Ok result ->
        plannedMoves result = snd (scanLibrary t libraryPath cfg)).
Proof.
  assert (Iff : In b (snd (scanLibrary t libraryPath cfg))
   <-> exists metaPath,
         In metaPath (findMetadataFiles t libraryPath)
         /\ itemPlan t cfg libraryPath metaPath = Some b
         /\ (bookDir b <> targetDir b
             \/ exists m, In m (movePlan b) /\ oldName m <> newName m)).
  { unfold scanLibrary. rewrite scan_fold_plans. simpl. rewrite in_flat_map.
    split.
    - intros [p [Hp Hb]]. exists p. split; [exact Hp|].
      unfold changedPlan in Hb.
      destruct (itemPlan t cfg libraryPath p) as [b'|]; [|contradiction].
      destruct (bookHasChanges b') eqn:Hc; [|contradiction].
      destruct Hb as [->|[]]. split; [reflexivity|].
      now apply hasChanges_spec.
    - intros [p [Hp [Hb Hc]]]. exists p. split; [exact Hp|].
      unfold changedPlan. rewrite Hb.
      apply hasChanges_spec in Hc. unfold bookHasChanges. rewrite Hc.
      now left. }
  split; [exact Iff|]. split.
  - intros Hd Hm Hin. apply Iff in Hin as [p [_ [_ [H|[m [Hin H]]]]]].
    + contradiction.
    + apply H. now apply Hm.
  - intros result. unfold scan. destruct libraryPath; [discriminate|].
    destruct (FS.access t _); [|discriminate].
    destruct (scanLibrary t _ cfg) as [st plans]. intros H.
    injection H as <-. reflexivity.
Qed.

(** ** Series and standalone items *)

(** The claim of C9 fails on an item whose series field is a number without
    a title: its series title is empty, and it is recorded as a series, not
    as a standalone item. *)
Lemma C9_counterexample :
  itemFields Sample.untitledSeriesDisk (str "/lib/X/metadata.json")
  = Some {| f_author := str "A"; f_bookTitle := str "T";
            f_narrator := str "Unknown Narrator"; f_seriesField := str "#1" |}
  /\ parseSeries (str "#1") = ([], str "01")
  /\ standaloneCount (fst (scanLibrary Sample.untitledSeriesDisk (str "/lib")
                                        Sample.fullDetails)) = 0%N
  /\ series (fst (scanLibrary Sample.untitledSeriesDisk (str "/lib")
                               Sample.fullDetails)) = [[]]
  /\ ~ (forall f st,
          fst (parseSeries (f_seriesField f)) = []
          <-> standaloneCount (countItem f st) = (standaloneCount st + 1)%N).
Proof.
  repeat (split; [vm_compute; reflexivity|]).
  intros H.
  specialize (H {| f_author := str "A"; f_bookTitle := str "T";
                   f_narrator := str "Unknown Narrator";
                   f_seriesField := str "#1" |} emptyStats).
  destruct H as [H _]. specialize (H eq_refl). vm_compute in H. discriminate H.
Qed.

(** C9, amended.  An item is counted as standalone exactly when its series
    field is empty; its series title and book number are then empty too.
    The series title is the sanitized text before the first [#] of the
    field, so it is also empty for a field that is not empty but sanitizes to
    nothing, and such an item is counted with the series.  Over a scan, the
    standalone count is the number of items read whose series field is
    empty. *)
Theorem C9_standalone_amended (f : fields) (st : stats) :
  (standaloneCount (countItem f st) = (standaloneCount st + 1)%N
   <-> f_seriesField f = [])
  /\ (f_seriesField f = [] -> parseSeries (f_seriesField f) = ([], []))
  /\ (f_seriesField f <> [] ->
        standaloneCount (countItem f st) = standaloneCount st
        /\ series (countItem f st)
           = add (fst (parseSeries (f_seriesField f))) (series st))
  /\ fst (parseSeries (f_seriesField f))
     = cleanFilename (beforeFirst hash (f_seriesField f))
  /\ (forall t cfg libraryPath,
        standaloneCount (fst (scanLibrary t libraryPath cfg))
        = N.of_nat (List.length (filter (standaloneField t)
                                        (findMetadataFiles t libraryPath)))).
Proof.
  unfold countItem, countSeries.
  destruct (f_seriesField f) as [|c r] eqn:E; simpl nonempty.
  - repeat split; auto; try congruence.
    intros. unfold scanLibrary. now rewrite scan_fold_standalone.
  - repeat split; auto; try congruence; try discriminate.
    + simpl. lia.
    + apply parseSeries_title.
    + intros. unfold scanLibrary. now rewrite scan_fold_standalone.
Qed.

Lemma C9_standalone_amended_witness :
  standaloneCount
    (countItem {| f_author := str "A"; f_bookTitle := str "T";
                  f_narrator := str "N"; f_seriesField := str "Saga #2" |}
               emptyStats) = 0%N
  /\ parseSeries [] = ([], []).
Proof.
  split.
  - destruct (C9_standalone_amended
                {| f_author := str "A"; f_bookTitle := str "T";
                   f_narrator := str "N"; f_seriesField := str "Saga #2" |}
                emptyStats) as (_ & _ & H & _).
    destruct H as [H _]; [discriminate|exact H].
  - destruct (C9_standalone_amended
                {| f_author := str "A"; f_bookTitle := str "T";
                   f_narrator := str "N"; f_seriesField := [] |}
                emptyStats) as (_ & H & _).
    apply H. reflexivity.
Defined.

(** ** Audio file names *)

Section Naming.

Variable cfg : formatConfig.
Variables cleanAuthor seriesTitle bookNumber cleanTitle dir : jsstring.

Lemma audioMoves_nth (numAudio : nat) (audioFiles : list jsstring) (k i : nat)
  (a : jsstring) :
  nth_error audioFiles i = Some a ->
  nth_error (audioMoves cfg cleanAuthor seriesTitle bookNumber cleanTitle dir
                        numAudio audioFiles k) i
  = Some {| oldName := a;
            newName := cleanFilename
                         (deriveName cfg cleanAuthor seriesTitle bookNumber
                                     cleanTitle numAudio a (k + i));
            oldPath := Path.join [dir; a];
            type := audio |}.
Proof.
  revert k i; induction audioFiles as [|x l IH]; intros k [|i]; simpl;
    try discriminate.
  - intros H. injection H as ->. now rewrite Nat.add_0_r.
  - intros H. rewrite (IH (S k) i H). now rewrite Nat.add_succ_r.
Qed.

Lemma audioMoves_length (numAudio : nat) (audioFiles : list jsstring) (k : nat) :
  List.length (audioMoves cfg cleanAuthor seriesTitle bookNumber cleanTitle dir
                          numAudio audioFiles k)
  = List.length audioFiles.
Proof.
  revert k; induction audioFiles as [|x l IH]; intros k; simpl; auto.
Qed.

Lemma buildMovePlan_nth (allFiles : list jsstring) (i : nat) (a : jsstring) :
  nth_error (sortAudio allFiles) i = Some a ->
  nth_error (buildMovePlan cfg cleanAuthor seriesTitle bookNumber cleanTitle dir
                           allFiles) i
  = Some {| oldName := a;
            newName := cleanFilename
                         (deriveName cfg cleanAuthor seriesTitle bookNumber
                                     cleanTitle (List.length (sortAudio allFiles)) a i);
            oldPath := Path.join [dir; a];
            type := audio |}.
Proof.
  intros H. unfold buildMovePlan. rewrite nth_error_app1.
  - now rewrite (audioMoves_nth _ _ 0 _ H).
  - rewrite audioMoves_length. apply nth_error_Some. congruence.
Qed.

End Naming.

Lemma deriveName_full_many (cfg : formatConfig) (cleanAuthor seriesTitle
  bookNumber cleanTitle a : jsstring) (numAudio i : nat) :
  fileFormat cfg = str "full-details" -> (1 < numAudio)%nat ->
  deriveName cfg cleanAuthor seriesTitle bookNumber cleanTitle numAudio a i
  = spec_fullDetailsName cleanAuthor seriesTitle bookNumber cleanTitle (i + 1)
                         (Path.extname a).
Proof.
  intros F N. unfold deriveName, spec_fullDetailsName, spec_baseName, trackSuffix.
  rewrite F, string_eqb_refl.
  apply Nat.ltb_lt in N. rewrite N. now rewrite <- !app_assoc.
Qed.

Lemma deriveName_single (cfg : formatConfig) (cleanAuthor seriesTitle
  bookNumber cleanTitle a : jsstring) (i : nat) :
  deriveName cfg cleanAuthor seriesTitle bookNumber cleanTitle 1 a i
  = spec_singleName cfg cleanAuthor seriesTitle bookNumber cleanTitle a.
Proof.
  unfold deriveName, spec_singleName, spec_baseName, trackSuffix. simpl Nat.ltb.
  destruct (string_eqb (fileFormat cfg) (str "full-details")); [reflexivity|].
  destruct (string_eqb (fileFormat cfg) (str "title-only")); reflexivity.
Qed.

(** The claim of C8 read with the author and title of the metadata fails on
    a title that holds a colon; read with the sanitized author and title it
    fails on a book number that holds a slash: the name is sanitized as a
    whole. *)
Lemma C8_counterexample :
  map newName
      (firstn 2 (movePlan (planItem Sample.fullDetails (str "/lib")
                             (Sample.mistborn "Mistborn #1" "Mistborn: The Final Empire")
                             (str "/lib/X") Sample.twoTracks)))
  = [str "Brandon Sanderson - Mistborn 01 - Mistborn The Final Empire - 01.mp3";
     str "Brandon Sanderson - Mistborn 01 - Mistborn The Final Empire - 02.mp3"]
  /\ spec_fullDetailsName (str "Brandon Sanderson") (str "Mistborn") (str "01")
                          (str "Mistborn: The Final Empire") 1 (str ".mp3")
     = str "Brandon Sanderson - Mistborn 01 - Mistborn: The Final Empire - 01.mp3"
  /\ map newName
         (firstn 2 (movePlan (planItem Sample.fullDetails (str "/lib")
                                (Sample.mistborn "Mistborn #1/2" "The Final Empire")
                                (str "/lib/X") Sample.twoTracks)))
     = [str "Brandon Sanderson - Mistborn 12 - The Final Empire - 01.mp3";
        str "Brandon Sanderson - Mistborn 12 - The Final Empire - 02.mp3"]
  /\ parseSeries (str "Mistborn #1/2") = (str "Mistborn", str "1/2")
  /\ spec_fullDetailsName (cleanFilename (str "Brandon Sanderson")) (str "Mistborn")
                          (str "1/2") (cleanFilename (str "The Final Empire"))
                          1 (str ".mp3")
     = str "Brandon Sanderson - Mistborn 1/2 - The Final Empire - 01.mp3"
  /\ ~ (forall f allFiles a m,
          nth_error (sortAudio allFiles) 0 = Some a ->
          (1 < List.length (sortAudio allFiles))%nat ->
          nth_error (movePlan (planItem Sample.fullDetails (str "/lib") f
                                        (str "/lib/X") allFiles)) 0 = Some m ->
          newName m
          = spec_fullDetailsName (cleanFilename (f_author f))
              (fst (parseSeries (f_seriesField f)))
              (snd (parseSeries (f_seriesField f)))
              (cleanFilename (f_bookTitle f)) 1 (Path.extname a)).
Proof.
  repeat (split; [vm_compute; reflexivity|]).
  intros H.
  specialize (H (Sample.mistborn "Mistborn #1/2" "The Final Empire")
                Sample.twoTracks (str "a.mp3")
                {| oldName := str "a.mp3";
                   newName := str "Brandon Sanderson - Mistborn 12 - The Final Empire - 01.mp3";
                   oldPath := str "/lib/X/a.mp3";
                   type := audio |}).
  assert (H1 : nth_error (sortAudio Sample.twoTracks) 0 = Some (str "a.mp3"))
    by (vm_compute; reflexivity).
  assert (H2 : (1 < List.length (sortAudio Sample.twoTracks))%nat)
    by (vm_compute; lia).
  specialize (H H1 H2). vm_compute in H. specialize (H eq_refl).
  discriminate H.
Qed.

(** C8, amended.  Under the file format full-details, in an item with more
    than one audio file, the audio file at position [i] (from 1) of the
    order the scan sorts them in is renamed to the sanitized form of: the
    non-empty parts among the sanitized author, the series title followed by
    a space and the book number, trimmed (only with a series title), and the
    sanitized title, joined by [" - "], then [" - "] and [i] padded with
    zeros to width 2, then the extension of the file.  Where that name is
    already in sanitized form it is the new name as it stands.  In an item
    with one audio file the new name is the sanitized form of the name
    without such a suffix, under every file format. *)
Theorem C8_audio_names_amended (cfg : formatConfig) (libraryPath : jsstring)
  (f : fields) (dir : jsstring) (allFiles : list jsstring) (i : nat)
  (a : jsstring) :
  nth_error (sortAudio allFiles) i = Some a ->
  let b := planItem cfg libraryPath f dir allFiles in
  let cleanAuthor := cleanFilename (f_author f) in
  let cleanTitle := cleanFilename (f_bookTitle f) in
  let seriesTitle := fst (parseSeries (f_seriesField f)) in
  let bookNumber := snd (parseSeries (f_seriesField f)) in
  exists m,
    nth_error (movePlan b) i = Some m /\ oldName m = a /\ type m = audio
    /\ (fileFormat cfg = str "full-details" ->
        (1 < List.length (sortAudio allFiles))%nat ->
        newName m = cleanFilename
                      (spec_fullDetailsName cleanAuthor seriesTitle bookNumber
                                            cleanTitle (i + 1) (Path.extname a))
        /\ (sanitized (spec_fullDetailsName cleanAuthor seriesTitle bookNumber
                                            cleanTitle (i + 1) (Path.extname a)) ->
            newName m = spec_fullDetailsName cleanAuthor seriesTitle bookNumber
                                             cleanTitle (i + 1) (Path.extname a)))
    /\ (List.length (sortAudio allFiles) = 1%nat ->
        newName m = cleanFilename
                      (spec_singleName cfg cleanAuthor seriesTitle bookNumber
                                       cleanTitle a)).
Proof.
  intros H. cbv zeta. unfold planItem.
  destruct (parseSeries (f_seriesField f)) as [seriesTitle bookNumber].
  cbn [movePlan fst snd].
  eexists. split; [apply buildMovePlan_nth; exact H|].
  cbn [oldName newName type]. repeat split.
  - now rewrite deriveName_full_many.
  - intros S. rewrite deriveName_full_many by assumption.
    now apply sanitized_fixed.
  - intros L. rewrite L. now rewrite deriveName_single.
Qed.

Lemma C8_audio_names_amended_witness :
  exists m,
    nth_error (movePlan (planItem Sample.fullDetails (str "/lib")
                           (Sample.mistborn "Mistborn #1" "The Final Empire")
                           (str "/lib/X") Sample.twoTracks)) 1 = Some m
    /\ oldName m = str "b.mp3"
    /\ newName m = str "Brandon Sanderson - Mistborn 01 - The Final Empire - 02.mp3".
Proof.
  destruct (@C8_audio_names_amended Sample.fullDetails (str "/lib")
              (Sample.mistborn "Mistborn #1" "The Final Empire")
              (str "/lib/X") Sample.twoTracks 1 (str "b.mp3"))
    as (m & Hm & Ho & _ & Hn & _).
  - vm_compute. reflexivity.
  - exists m. split; [exact Hm|]. split; [exact Ho|].
    destruct Hn as [Hn _]; [reflexivity|vm_compute; lia|].
    rewrite Hn. vm_compute. reflexivity.
Defined.

(** ** The file system *)

Module FSFacts.
Import FS.

Lemma assoc_In (k : jsstring) (es : list (jsstring * node)) (c : node) :
  assoc k es = Some c -> In (k, c) es.
Proof.
  induction es as [|[k' v] es IH]; simpl; [discriminate|].
  destruct (string_eqb k' k) eqn:E.
  - apply string_eqb_eq in E. intros H. injection H as ->. left. congruence.
  - intros H. right. auto.
Qed.

Lemma assoc_None (k : jsstring) (es : list (jsstring * node)) :
  assoc k es = None <-> existsb (fun e => string_eqb (fst e) k) es = false.
Proof.
  induction es as [|[k' v] es IH]; simpl; [tauto|].
  destruct (string_eqb k' k); simpl; [split; discriminate|exact IH].
Qed.

Lemma assoc_setEntry_same (k : jsstring) (x : node) (es : list (jsstring * node)) :
  assoc k (setEntry k x es) = Some x.
Proof.
  induction es as [|[k' v] es IH]; simpl.
  - now rewrite string_eqb_refl.
  - destruct (string_eqb k' k) eqn:E; simpl; now rewrite E.
Qed.

Lemma assoc_setEntry_other (k k' : jsstring) (x : node) (es : list (jsstring * node)) :
  k' <> k -> assoc k' (setEntry k x es) = assoc k' es.
Proof.
  intros N. induction es as [|[k0 v] es IH]; simpl.
  - apply string_eqb_neq in N. destruct (string_eqb k k') eqn:E; [|reflexivity].
    apply string_eqb_eq in E. subst. now rewrite string_eqb_refl in N.
  - destruct (string_eqb k0 k) eqn:E; simpl.
    + apply string_eqb_eq in E. subst.
      assert (string_eqb k k' = false) as ->; [|reflexivity].
      apply string_eqb_neq. congruence.
    + now rewrite IH.
Qed.

Lemma assoc_removeEntry_other (k k' : jsstring) (es : list (jsstring * node)) :
  k' <> k -> assoc k' (removeEntry k es) = assoc k' es.
Proof.
  intros N. induction es as [|[k0 v] es IH]; simpl; [reflexivity|].
  destruct (string_eqb k0 k) eqn:E; simpl.
  - apply string_eqb_eq in E. subst.
    assert (string_eqb k k' = false) as ->; [|reflexivity].
    apply string_eqb_neq. congruence.
  - now rewrite IH.
Qed.

Lemma assoc_removeEntry_same (k : jsstring) (es : list (jsstring * node)) :
  uniqueNames es = true -> assoc k (removeEntry k es) = None.
Proof.
  induction es as [|[k0 v] es IH]; simpl; [reflexivity|].
  intros U. apply andb_true_iff in U as [U1 U2].
  destruct (string_eqb k0 k) eqn:E; simpl.
  - apply string_eqb_eq in E. subst. apply assoc_None.
    now apply negb_true_iff.
  - rewrite E. auto.
Qed.

Lemma names_setEntry (k k' : jsstring) (x : node) (es : list (jsstring * node)) :
  existsb (fun e => string_eqb (fst e) k') (setEntry k x es)
  = existsb (fun e => string_eqb (fst e) k') es || string_eqb k k'.
Proof.
  induction es as [|[k0 v] es IH]; simpl.
  - now rewrite orb_false_r.
  - destruct (string_eqb k0 k) eqn:E; simpl.
    + apply string_eqb_eq in E. subst.
      destruct (string_eqb k k'); simpl; [reflexivity|now rewrite orb_false_r].
    + rewrite IH. now rewrite orb_assoc.
Qed.

Lemma names_removeEntry (k k' : jsstring) (es : list (jsstring * node)) :
  existsb (fun e => string_eqb (fst e) k') es = false ->
  existsb (fun e => string_eqb (fst e) k') (removeEntry k es) = false.
Proof.
  induction es as [|[k0 v] es IH]; simpl; [reflexivity|].
  intros H. apply orb_false_iff in H as [H1 H2].
  destruct (string_eqb k0 k); simpl; [exact H2|].
  rewrite H1. auto.
Qed.

Lemma unique_setEntry (k : jsstring) (x : node) (es : list (jsstring * node)) :
  uniqueNames es = true -> uniqueNames (setEntry k x es) = true.
Proof.
  induction es as [|[k0 v] es IH]; simpl; [reflexivity|].
  intros U. apply andb_true_iff in U as [U1 U2].
  destruct (string_eqb k0 k) eqn:E; simpl.
  - now rewrite U1, U2.
  - rewrite names_setEntry, IH by exact U2.
    apply negb_true_iff in U1. rewrite U1.
    assert (string_eqb k k0 = false) as ->; [|reflexivity].
    apply string_eqb_neq. apply string_eqb_neq in E. congruence.
Qed.

Lemma unique_removeEntry (k : jsstring) (es : list (jsstring * node)) :
  uniqueNames es = true -> uniqueNames (removeEntry k es) = true.
Proof.
  induction es as [|[k0 v] es IH]; simpl; [reflexivity|].
  intros U. apply andb_true_iff in U as [U1 U2].
  destruct (string_eqb k0 k); simpl; [exact U2|].
  rewrite IH by exact U2. apply negb_true_iff in U1.
  now rewrite names_removeEntry.
Qed.

Lemma wellFormed_Dir (es : list (jsstring * node)) :
  wellFormed (Dir es) = uniqueNames es && childrenOk es.
Proof. reflexivity. Qed.

Lemma childrenOk_assoc (k : jsstring) (es : list (jsstring * node)) (c : node) :
  childrenOk es = true -> assoc k es = Some c -> wellFormed c = true.
Proof.
  intros H A. apply assoc_In in A. unfold childrenOk in H.
  rewrite forallb_forall in H. exact (H _ A).
Qed.

Lemma childrenOk_setEntry (k : jsstring) (x : node) (es : list (jsstring * node)) :
  childrenOk es = true -> wellFormed x = true ->
  childrenOk (setEntry k x es) = true.
Proof.
  unfold childrenOk. intros H X.
  induction es as [|[k0 v] es IH]; simpl in *.
  - now rewrite X.
  - apply andb_true_iff in H as [H1 H2].
    destruct (string_eqb k0 k); simpl.
    + now rewrite X, H2.
    + now rewrite H1, IH.
Qed.

Lemma childrenOk_removeEntry (k : jsstring) (es : list (jsstring * node)) :
  childrenOk es = true -> childrenOk (removeEntry k es) = true.
Proof.
  unfold childrenOk. intros H.
  induction es as [|[k0 v] es IH]; simpl in *; [reflexivity|].
  apply andb_true_iff in H as [H1 H2].
  destruct (string_eqb k0 k); simpl; [exact H2|].
  now rewrite H1, IH.
Qed.

Lemma files_Dir (es : list (jsstring * node)) : files (Dir es) = filesOf es.
Proof. reflexivity. Qed.

Lemma filesOf_remove (k : jsstring) (es : list (jsstring * node)) (c : node) :
  assoc k es = Some c ->
  Permutation (filesOf es) (files c ++ filesOf (removeEntry k es)).
Proof.
  unfold filesOf. induction es as [|[k0 v] es IH]; simpl; [discriminate|].
  destruct (string_eqb k0 k).
  - intros H. injection H as ->. reflexivity.
  - intros H. simpl. rewrite (IH H).
    rewrite !app_assoc. apply Permutation_app_tail. apply Permutation_app_comm.
Qed.

Lemma filesOf_set_present (k : jsstring) (x : node) (es : list (jsstring * node))
  (c : node) :
  assoc k es = Some c ->
  Permutation (filesOf (setEntry k x es)) (files x ++ filesOf (removeEntry k es)).
Proof.
  unfold filesOf. induction es as [|[k0 v] es IH]; simpl; [discriminate|].
  destruct (string_eqb k0 k).
  - intros _. reflexivity.
  - intros H. simpl. rewrite (IH H).
    rewrite !app_assoc. apply Permutation_app_tail. apply Permutation_app_comm.
Qed.

Lemma filesOf_set_absent (k : jsstring) (x : node) (es : list (jsstring * node)) :
  assoc k es = None -> filesOf (setEntry k x es) = filesOf es ++ files x.
Proof.
  unfold filesOf. induction es as [|[k0 v] es IH]; simpl.
  - intros _. now rewrite app_nil_r.
  - destruct (string_eqb k0 k); [discriminate|].
    intros H. simpl. rewrite (IH H). now rewrite app_assoc.
Qed.

Lemma cut_spec (segs : list jsstring) :
  forall t x t', cut t segs = Some (x, t') ->
    get t segs = Some x
    /\ Permutation (files t) (files x ++ files t')
    /\ (wellFormed t = true ->
        wellFormed t' = true /\ wellFormed x = true
        /\ forall sn, get t sn = None -> get t' sn = None).
Proof.
  induction segs as [|s r IH]; intros t x t'; [discriminate|].
  destruct t as [c|es]; [destruct r; discriminate|].
  destruct r as [|s' r'].
  - simpl. destruct (assoc s es) as [child|] eqn:A; [|discriminate].
    intros H. injection H as <- <-. split; [reflexivity|]. split.
    + rewrite !files_Dir. now apply filesOf_remove.
    + rewrite !wellFormed_Dir. intros W. apply andb_true_iff in W as [U C].
      rewrite unique_removeEntry, childrenOk_removeEntry by assumption.
      split; [reflexivity|]. split; [eapply childrenOk_assoc; eauto|].
      intros [|k sn]; simpl; [discriminate|].
      destruct (string_eqb_eq k s) as [_ E].
      destruct (string_eqb k s) eqn:K.
      * apply string_eqb_eq in K. subst.
        now rewrite assoc_removeEntry_same by assumption.
      * apply string_eqb_neq in K. now rewrite assoc_removeEntry_other.
  - change (cut (Dir es) (s :: s' :: r'))
      with (match assoc s es with
            | Some child =>
                match cut child (s' :: r') with
                | Some (x, child') => Some (x, Dir (setEntry s child' es))
                | None => None
                end
            | None => None
            end).
    destruct (assoc s es) as [child|] eqn:A; [|discriminate].
    destruct (cut child (s' :: r')) as [[x0 child']|] eqn:Cut; [|discriminate].
    intros H. injection H as <- <-.
    destruct (IH _ _ _ Cut) as (G & P & W).
    split; [simpl; rewrite A; exact G|]. split.
    + rewrite !files_Dir.
      rewrite (filesOf_remove _ _ A), (filesOf_set_present _ child' _ A), P.
      rewrite <- !app_assoc. reflexivity.
    + rewrite !wellFormed_Dir. intros W0. apply andb_true_iff in W0 as [U C].
      destruct (W (childrenOk_assoc _ _ C A)) as (W1 & W2 & W3).
      rewrite unique_setEntry, childrenOk_setEntry by assumption.
      split; [reflexivity|]. split; [exact W2|].
      intros [|k sn]; [discriminate|].
      cbn [get]. destruct (string_eqb k s) eqn:K.
      * apply string_eqb_eq in K. subst.
        rewrite assoc_setEntry_same, A. apply W3.
      * apply string_eqb_neq in K. now rewrite assoc_setEntry_other.
Qed.

Lemma put_spec (segs : list jsstring) :
  forall t x t2, put t segs x = Some t2 -> get t segs = None ->
    Permutation (files t2) (files t ++ files x)
    /\ (wellFormed t = true -> wellFormed x = true -> wellFormed t2 = true).
Proof.
  induction segs as [|s r IH]; intros t x t2; [discriminate|].
  destruct t as [c|es]; [destruct r; discriminate|].
  destruct r as [|s' r'].
  - simpl. intros H. injection H as <-.
    destruct (assoc s es) as [child|] eqn:A; [discriminate|]. intros _.
    split.
    + rewrite !files_Dir. now rewrite filesOf_set_absent.
    + rewrite !wellFormed_Dir. intros W X. apply andb_true_iff in W as [U C].
      now rewrite unique_setEntry, childrenOk_setEntry.
  - change (put (Dir es) (s :: s' :: r') x)
      with (match assoc s es with
            | Some child =>
                match put child (s' :: r') x with
                | Some child' => Some (Dir (setEntry s child' es))
                | None => None
                end
            | None => None
            end).
    cbn [get].
    destruct (assoc s es) as [child|] eqn:A; [|discriminate].
    destruct (put child (s' :: r') x) as [child'|] eqn:Put; [|discriminate].
    intros H G. injection H as <-.
    destruct (IH _ _ _ Put G) as (P & W).
    split.
    + rewrite !files_Dir.
      rewrite (filesOf_set_present _ child' _ A), P, (filesOf_remove _ _ A).
      rewrite <- !app_assoc. apply Permutation_app_head.
      apply Permutation_app_comm.
    + rewrite !wellFormed_Dir. intros W0 X. apply andb_true_iff in W0 as [U C].
      rewrite unique_setEntry, childrenOk_setEntry; auto.
      apply W; auto. eapply childrenOk_assoc; eauto.
Qed.

Lemma mkdirSegments_spec (segs : list jsstring) :
  forall t t', mkdirSegments t segs = Some t' ->
    Permutation (files t') (files t)
    /\ (wellFormed t = true -> wellFormed t' = true).
Proof.
  induction segs as [|s r IH]; intros t t'.
  - destruct t; simpl; [discriminate|]. intros H. injection H as <-. auto.
  - destruct t as [c|es]; [discriminate|]. cbn [mkdirSegments].
    destruct (mkdirSegments _ r) as [child'|] eqn:M; [|discriminate].
    intros H. injection H as <-.
    destruct (IH _ _ M) as (P & W). split.
    + rewrite !files_Dir. destruct (assoc s es) as [child|] eqn:A.
      * rewrite (filesOf_set_present _ child' _ A), P.
        symmetry. now apply filesOf_remove.
      * rewrite filesOf_set_absent by exact A. rewrite P. simpl.
        now rewrite app_nil_r.
    + rewrite !wellFormed_Dir. intros W0. apply andb_true_iff in W0 as [U C].
      rewrite unique_setEntry, childrenOk_setEntry; auto.
      apply W. destruct (assoc s es) as [child|] eqn:A; [|reflexivity].
      eapply childrenOk_assoc; eauto.
Qed.

Lemma mkdir_spec (t t' : fs) (path : jsstring) :
  mkdir t path = Some t' ->
  Permutation (files t') (files t) /\ (wellFormed t = true -> wellFormed t' = true).
Proof.
  unfold mkdir. destruct (resolve path); [|discriminate].
  apply mkdirSegments_spec.
Qed.

Lemma rmdir_spec (t t' : fs) (path : jsstring) :
  rmdir t path = Some t' ->
  Permutation (files t') (files t) /\ (wellFormed t = true -> wellFormed t' = true).
Proof.
  unfold rmdir. destruct (resolve path) as [segs|]; [|discriminate].
  destruct (get t segs) as [[c|[|e es]]|] eqn:G; try discriminate.
  destruct (cut t segs) as [[x t0]|] eqn:C; [|discriminate].
  intros H. injection H as <-.
  destruct (cut_spec _ _ C) as (G' & P & W).
  rewrite G in G'. injection G' as <-. split.
  - now rewrite P.
  - intros W0. now destruct (W W0).
Qed.

(** A rename to a path where nothing is keeps every file. *)
Lemma rename_spec (t t2 : fs) (oldPath newPath : jsstring) :
  rename t oldPath newPath = Some t2 -> access t newPath = false ->
  wellFormed t = true ->
  Permutation (files t2) (files t) /\ wellFormed t2 = true.
Proof.
  unfold rename, access.
  destruct (resolve oldPath) as [so|]; [|discriminate].
  destruct (resolve newPath) as [sn|]; [|discriminate].
  destruct (get t so) as [src|]; [|discriminate].
  destruct (segments_eqb so sn).
  { intros H _ W. injection H as <-. auto. }
  destruct (isPrefix so sn); [discriminate|].
  destruct (get t sn) eqn:G; [discriminate|].
  destruct (cut t so) as [[x t']|] eqn:C; [|discriminate].
  intros Put _ W.
  destruct (cut_spec _ _ C) as (_ & P & W').
  destruct (W' W) as (W1 & W2 & W3).
  destruct (put_spec _ _ _ Put (W3 _ G)) as (P2 & W4).
  split; [|auto]. rewrite P2, P. apply Permutation_app_comm.
Qed.

End FSFacts.

(** ** The move executor *)

Section Executor.

Lemma moveFile_cases (targetDir : jsstring) (st : execState) (m : fileMove) :
  let newPath := Path.join [targetDir; newName m] in
  (oldPath m = newPath /\ moveFile targetDir st m = st)
  \/ (oldPath m <> newPath /\ FS.access (disk st) newPath = true
      /\ moveFile targetDir st m
         = {| disk := disk st;
              res := recordCollision (newName m) (res st);
              log := log st |})
  \/ (oldPath m <> newPath /\ FS.access (disk st) newPath = false
      /\ exists disk', FS.rename (disk st) (oldPath m) newPath = Some disk'
         /\ moveFile targetDir st m
            = {| disk := disk'; res := res st; log := log st |})
  \/ (oldPath m <> newPath /\ FS.access (disk st) newPath = false
      /\ FS.rename (disk st) (oldPath m) newPath = None
      /\ moveFile targetDir st m
         = {| disk := disk st;
              res := recordError (res st);
              log := log st ++ [ErrorMovingFile (oldName m)] |}).
Proof.
  cbv zeta. unfold moveFile.
  destruct (string_eqb (oldPath m) _) eqn:E.
  - left. apply string_eqb_eq in E. destruct st. auto.
  - right. apply string_eqb_neq in E.
    destruct (FS.access (disk st) _) eqn:A; [left; auto|right].
    destruct (FS.rename (disk st) (oldPath m) _) as [disk'|] eqn:R.
    + left. repeat split; auto. exists disk'. auto.
    + right. auto.
Qed.

Lemma keepsFiles_refl (st : execState) : keepsFiles st st.
Proof. intros W. auto. Qed.

Lemma keepsFiles_trans (a b c : execState) :
  keepsFiles a b -> keepsFiles b c -> keepsFiles a c.
Proof.
  intros H1 H2 W. destruct (H1 W) as [P1 W1]. destruct (H2 W1) as [P2 W2].
  split; [|exact W2]. now rewrite P2.
Qed.

Lemma moveFile_keepsFiles (targetDir : jsstring) (st : execState) (m : fileMove) :
  keepsFiles st (moveFile targetDir st m).
Proof.
  destruct (moveFile_cases targetDir st m)
    as [[_ E]|[(_ & _ & E)|[(_ & A & d & R & E)|(_ & _ & _ & E)]]];
    rewrite E; intros W; simpl; auto.
  exact (FSFacts.rename_spec _ _ _ R A W).
Qed.

Lemma moves_keepsFiles (targetDir : jsstring) (ms : list fileMove) (st : execState) :
  keepsFiles st (fold_left (moveFile targetDir) ms st).
Proof.
  revert st; induction ms as [|m ms IH]; intros st; simpl.
  - apply keepsFiles_refl.
  - eapply keepsFiles_trans; [apply moveFile_keepsFiles|apply IH].
Qed.

Lemma removeIfEmpty_keeps (t : FS.fs) (dir : jsstring) :
  FS.wellFormed t = true ->
  Permutation (FS.files (removeIfEmpty t dir)) (FS.files t)
  /\ FS.wellFormed (removeIfEmpty t dir) = true.
Proof.
  intros W. unfold removeIfEmpty.
  destruct (FS.readdir t dir) as [[|e l]|]; auto.
  destruct (FS.rmdir t dir) as [t'|] eqn:R; auto.
  destruct (FSFacts.rmdir_spec _ _ R) as [P W']. auto.
Qed.

Lemma executeBook_keepsFiles (st : execState) (b : book) :
  keepsFiles st (executeBook st b).
Proof.
  unfold executeBook.
  destruct (FS.mkdir (disk st) (targetDir b)) as [disk1|] eqn:M.
  - intros W. destruct (FSFacts.mkdir_spec _ _ M) as [P1 W1].
    destruct (moves_keepsFiles (targetDir b) (movePlan b)
                {| disk := disk1; res := res st; log := log st |} (W1 W))
      as [P2 W2].
    destruct (@removeIfEmpty_keeps _ (bookDir b) W2) as [P3 W3].
    simpl. split; [|exact W3]. now rewrite P3, P2.
  - intros W. simpl. auto.
Qed.

Lemma books_keepsFiles (plans : list book) (st : execState) :
  keepsFiles st (fold_left executeBook plans st).
Proof.
  revert st; induction plans as [|b plans IH]; intros st; simpl.
  - apply keepsFiles_refl.
  - eapply keepsFiles_trans; [apply executeBook_keepsFiles|apply IH].
Qed.


Lemma moves_accounting (targetDir : jsstring) (ms : list fileMove) (st : execState) :
  let st' := fold_left (moveFile targetDir) ms st in
  applied (res st') = applied (res st)
  /\ count isBookError (log st') = count isBookError (log st)
  /\ (errors (res st) = N.of_nat (List.length (log st)) ->
      errors (res st') = N.of_nat (List.length (log st'))).
Proof.
  cbv zeta. revert st; induction ms as [|m ms IH]; intros st; simpl; [auto|].
  destruct (IH (moveFile targetDir st m)) as (A & B & E).
  rewrite A, B.
  destruct (moveFile_cases targetDir st m)
    as [[_ F]|[(_ & _ & F)|[(_ & _ & d & _ & F)|(_ & _ & _ & F)]]];
    rewrite F in *; simpl in *; auto.
  repeat split.
  - unfold count. rewrite filter_app, length_app. simpl. now rewrite Nat.add_0_r.
  - intros H. apply E. rewrite length_app. simpl. lia.
Qed.

Lemma executeBook_accounting (st : execState) (b : book) :
  let st' := executeBook st b in
  applied (res st') = (applied (res st) + if created (st, b) then 1 else 0)%N
  /\ count isBookError (log st')
     = (count isBookError (log st) + if created (st, b) then 0 else 1)%N
  /\ (errors (res st) = N.of_nat (List.length (log st)) ->
      errors (res st') = N.of_nat (List.length (log st'))).
Proof.
  cbv zeta. unfold executeBook, created. simpl fst. simpl snd.
  destruct (FS.mkdir (disk st) (targetDir b)) as [disk1|].
  - destruct (moves_accounting (targetDir b) (movePlan b)
                {| disk := disk1; res := res st; log := log st |})
      as (A & B & E).
    simpl in *. rewrite A, B. repeat split; auto. lia.
  - simpl. repeat split.
    + lia.
    + unfold count. rewrite filter_app, length_app. simpl. lia.
    + intros H. rewrite length_app. simpl. lia.
Qed.

Lemma books_accounting (plans : list book) (st : execState) :
  let st' := fold_left executeBook plans st in
  applied (res st') = (applied (res st) + count created (trajectory st plans))%N
  /\ count isBookError (log st')
     = (count isBookError (log st)
        + count (fun step => negb (created step)) (trajectory st plans))%N
  /\ (errors (res st) = N.of_nat (List.length (log st)) ->
      errors (res st') = N.of_nat (List.length (log st'))).
Proof.
  cbv zeta. revert st; induction plans as [|b plans IH]; intros st; simpl.
  - unfold count. simpl. rewrite !N.add_0_r. auto.
  - destruct (IH (executeBook st b)) as (A & B & E).
    destruct (executeBook_accounting st b) as (A1 & B1 & E1).
    rewrite A, B, A1, B1. unfold count in *. simpl.
    destruct (created (st, b)); simpl; repeat split; auto; lia.
Qed.

Lemma log_kinds (l : list logEntry) :
  N.of_nat (List.length l) = (count isMoveError l + count isBookError l)%N.
Proof.
  unfold count. induction l as [|[n|n] l IH];
    cbn [filter isMoveError isBookError List.length]; lia.
Qed.

End Executor.



(** C3.  An execute call deletes no regular file: the files of the tree
    after the call are those before it, content by content (they are only
    moved).  The old directory of a plan is removed only when its listing,
    taken just before, is empty, and then by [rmdir]; a directory with an
    entry left stays as it is; and whether the removal is tried, succeeds or
    fails, the plan is counted as applied and no error is counted for it. *)
Theorem C3_no_file_deleted (t : FS.fs) (plans : list book) :
  FS.wellFormed t = true ->
  Permutation (FS.files (disk (execute t plans))) (FS.files t)
  /\ (forall d dir e l,
        FS.readdir d dir = Some (e :: l) -> removeIfEmpty d dir = d)
  /\ (forall d dir,
        removeIfEmpty d dir <> d ->
        FS.readdir d dir = Some [] /\ FS.rmdir d dir = Some (removeIfEmpty d dir))
  /\ (forall d dir, FS.rmdir d dir = None -> removeIfEmpty d dir = d)
  /\ (forall st b disk1,
        FS.mkdir (disk st) (targetDir b) = Some disk1 ->
        let st2 := fold_left (moveFile (targetDir b)) (movePlan b)
                             {| disk := disk1; res := res st; log := log st |} in
        disk (executeBook st b) = removeIfEmpty (disk st2) (bookDir b)
        /\ applied (res (executeBook st b)) = (applied (res st) + 1)%N
        /\ errors (res (executeBook st b)) = errors (res st2)
        /\ log (executeBook st b) = log st2).
Proof.
  intros W. split; [|split; [|split; [|split]]].
  - destruct (books_keepsFiles plans (initialState t) W) as [P _]. exact P.
  - intros d dir e l H. unfold removeIfEmpty. now rewrite H.
  - intros d dir. unfold removeIfEmpty.
    destruct (FS.readdir d dir) as [[|e l]|]; try congruence.
    destruct (FS.rmdir d dir); [auto|congruence].
  - intros d dir H. unfold removeIfEmpty. rewrite H.
    now destruct (FS.readdir d dir) as [[|e l]|].
  - intros st b disk1 M. cbv zeta. unfold executeBook. rewrite M. simpl.
    repeat split.
    destruct (moves_accounting (targetDir b) (movePlan b)
                {| disk := disk1; res := res st; log := log st |}) as (A & _).
    simpl in A. now rewrite A.
Qed.

Lemma C3_no_file_deleted_witness :
  let plans := snd (scanLibrary Sample.strayDisk (str "/lib") Sample.fullDetails) in
  FS.wellFormed Sample.strayDisk = true
  /\ Permutation (FS.files (disk (execute Sample.strayDisk plans)))
                 (FS.files Sample.strayDisk)
  /\ FS.access (disk (execute Sample.strayDisk plans)) (str "/lib/X") = false
  /\ FS.readdir (disk (execute Sample.strayDisk plans)) (str "/lib/A/T")
     = Some [str "old.mp3"; str "A - T.mp3"; str "metadata.json"].
Proof.
  cbv zeta. split; [reflexivity|]. split.
  - apply C3_no_file_deleted. reflexivity.
  - vm_compute. split; reflexivity.
Defined.

(** C10.  The applied count of an execute call is the number of plans whose
    target directory could be created when the plan was taken up; such a
    plan adds one to it whatever became of its file moves, be they all
    collisions or failures.  The error count is the number of file moves
    whose rename failed plus the number of plans whose target directory
    could not be created, each of them logged; a collision is no error. *)
Theorem C10_applied_counts_plans (t : FS.fs) (plans : list book) :
  let final := execute t plans in
  let run := trajectory (initialState t) plans in
  applied (res final) = count created run
  /\ errors (res final)
     = (count isMoveError (log final)
        + count (fun step => negb (created step)) run)%N
  /\ (applied (res final) + count (fun step => negb (created step)) run)%N
     = N.of_nat (List.length plans)
  /\ (forall st b,
        created (st, b) = true ->
        applied (res (executeBook st b)) = (applied (res st) + 1)%N)
  /\ (forall st b,
        created (st, b) = false ->
        executeBook st b
        = {| disk := disk st; res := recordError (res st);
             log := log st ++ [ErrorProcessingBook (title b)] |})
  /\ (forall targetDir st m,
        oldPath m <> Path.join [targetDir; newName m] ->
        FS.access (disk st) (Path.join [targetDir; newName m]) = false ->
        FS.rename (disk st) (oldPath m) (Path.join [targetDir; newName m]) = None ->
        moveFile targetDir st m
        = {| disk := disk st; res := recordError (res st);
             log := log st ++ [ErrorMovingFile (oldName m)] |}).
Proof.
  cbv zeta. unfold execute. fold (initialState t).
  destruct (books_accounting plans (initialState t)) as (A & B & E).
  simpl in A, B. specialize (E eq_refl).
  split; [exact A|]. split; [|split; [|split; [|split]]].
  - rewrite E, log_kinds, B. reflexivity.
  - rewrite A. unfold count. clear.
    generalize (initialState t) as st.
    induction plans as [|b plans IH]; intros st; [reflexivity|].
    specialize (IH (executeBook st b)).
    cbn [trajectory filter List.length].
    destruct (created (st, b)); cbn [negb List.length]; lia.
  - intros st b C.
    destruct (executeBook_accounting st b) as (A1 & _). rewrite A1, C.
    reflexivity.
  - intros st b C. unfold executeBook. unfold created in C. simpl in C.
    now destruct (FS.mkdir (disk st) (targetDir b)).
  - intros targetDir st m N Acc R.
    destruct (moveFile_cases targetDir st m)
      as [[E' _]|[(_ & A' & _)|[(_ & _ & d & R' & _)|(_ & _ & _ & F)]]];
      try contradiction; try congruence.
Qed.

(** ** The order of the audio files *)

Section Order.

Lemma string_ltb_irrefl (a : jsstring) : string_ltb a a = false.
Proof.
  induction a as [|x a IH]; simpl; [reflexivity|].
  now rewrite N.ltb_irrefl.
Qed.

Lemma string_ltb_trans (a b c : jsstring) :
  string_ltb a b = true -> string_ltb b c = true -> string_ltb a c = true.
Proof.
  revert b c; induction a as [|x a IH]; intros [|y b] [|z c]; simpl;
    try discriminate; try reflexivity.
  destruct (N.ltb_spec x y), (N.ltb_spec y x), (N.ltb_spec y z),
    (N.ltb_spec z y), (N.ltb_spec x z), (N.ltb_spec z x);
    try discriminate; try reflexivity; try lia.
  apply IH.
Qed.

Lemma string_ltb_asym (a b : jsstring) :
  string_ltb a b = true -> string_ltb b a = false.
Proof.
  intros H. destruct (string_ltb b a) eqn:E; [|reflexivity].
  pose proof (string_ltb_trans _ _ _ H E) as T.
  now rewrite string_ltb_irrefl in T.
Qed.

Lemma string_ltb_prefix (p a b : jsstring) :
  string_ltb (p ++ a) (p ++ b) = string_ltb a b.
Proof.
  induction p as [|x p IH]; simpl; [reflexivity|].
  now rewrite N.ltb_irrefl.
Qed.

Lemma compareFn_le (y x : jsstring) :
  (compareFn y x <=? 0)%Z = negb (string_ltb (keyString x) (keyString y)).
Proof.
  unfold compareFn, array_ltb. fold (keyString x). fold (keyString y).
  destruct (string_ltb (keyString y) (keyString x)) eqn:E.
  - now rewrite (string_ltb_asym _ _ E).
  - now destruct (string_ltb (keyString x) (keyString y)).
Qed.

Lemma insert_perm (x : jsstring) (l : list jsstring) :
  Permutation (insert compareFn x l) (x :: l).
Proof.
  induction l as [|y l IH]; simpl; [reflexivity|].
  destruct (compareFn y x <=? 0)%Z; [|reflexivity].
  rewrite IH. apply perm_swap.
Qed.

Lemma sort_fold_perm (l acc : list jsstring) :
  Permutation (fold_left (fun sorted x => insert compareFn x sorted) l acc)
              (acc ++ l).
Proof.
  revert acc; induction l as [|x l IH]; intros acc; simpl.
  - now rewrite app_nil_r.
  - rewrite IH, insert_perm. apply Permutation_middle.
Qed.

Lemma sort_perm (l : list jsstring) : Permutation (sort compareFn l) l.
Proof. apply (sort_fold_perm l []). Qed.

Lemma insert_sorted (x : jsstring) (l : list jsstring) :
  StronglySorted keyLe l -> StronglySorted keyLe (insert compareFn x l).
Proof.
  induction 1 as [|y l S IH F]; simpl.
  - constructor; [constructor|constructor].
  - rewrite compareFn_le.
    destruct (string_ltb (keyString x) (keyString y)) eqn:E; simpl.
    + constructor; [now constructor|]. constructor.
      * unfold keyLe. now apply string_ltb_asym.
      * rewrite Forall_forall in *. intros z Hz. specialize (F z Hz).
        unfold keyLe in *.
        destruct (string_ltb (keyString z) (keyString x)) eqn:Z; [|reflexivity].
        now rewrite (string_ltb_trans _ _ _ Z E) in F.
    + constructor; [exact IH|].
      rewrite Forall_forall in *. intros z Hz.
      apply (Permutation_in _ (insert_perm x l)) in Hz as [<-|Hz]; auto.
Qed.

Lemma sort_fold_sorted (l acc : list jsstring) :
  StronglySorted keyLe acc ->
  StronglySorted keyLe (fold_left (fun sorted x => insert compareFn x sorted) l acc).
Proof.
  revert acc; induction l as [|x l IH]; intros acc S; simpl; [exact S|].
  apply IH. now apply insert_sorted.
Qed.

Lemma sort_sorted (l : list jsstring) : StronglySorted keyLe (sort compareFn l).
Proof. apply sort_fold_sorted. constructor. Qed.



End Order.

(** ** The planner's fixed point *)

Section CleanedNames.

Lemma collapse_plain (b : bool) (v : jsstring) :
  forallb plain v = true -> collapseSpaces b v = v.
Proof.
  revert b; induction v as [|c v IH]; intros b; simpl; [reflexivity|].
  intros H. apply andb_true_iff in H as [H1 H2].
  unfold plain in H1. apply andb_true_iff in H1 as [_ H1].
  apply negb_true_iff in H1. rewrite H1. now rewrite IH.
Qed.

Lemma collapse_app_plain (b : bool) (u v : jsstring) :
  forallb plain v = true ->
  collapseSpaces b (u ++ v) = collapseSpaces b u ++ v.
Proof.
  intros H. revert b; induction u as [|c u IH]; intros b; simpl.
  - now apply collapse_plain.
  - destruct (is_space c); [destruct b|]; now rewrite IH.
Qed.

Lemma collapse_app_at (b : bool) (u w : jsstring) (c : char) :
  is_space c = false ->
  collapseSpaces b (u ++ c :: w)
  = collapseSpaces b u ++ c :: collapseSpaces false w.
Proof.
  intros H. revert b; induction u as [|x u IH]; intros b; simpl.
  - now rewrite H.
  - destruct (is_space x); [destruct b|]; now rewrite IH.
Qed.

Lemma dropWhile_app (p : char -> bool) (w v : jsstring) :
  (forall c r, v = c :: r -> p c = false) ->
  dropWhile p (w ++ v) = dropWhile p w ++ v.
Proof.
  intros H. induction w as [|x w IH]; simpl.
  - now apply dropWhile_fixed.
  - now destruct (p x).
Qed.

Lemma filter_valid_plain (v : jsstring) :
  forallb plain v = true -> filter valid v = v.
Proof.
  intros H. apply forallb_filter_id. rewrite forallb_forall in *.
  intros c Hc. specialize (H c Hc). unfold plain in H.
  now apply andb_true_iff in H as [H _].
Qed.

Lemma plain_head (v : jsstring) (c : char) (r : jsstring) :
  forallb plain v = true -> v = c :: r -> is_space c = false.
Proof.
  intros H ->. simpl in H. apply andb_true_iff in H as [H _].
  unfold plain in H. apply andb_true_iff in H as [_ H].
  now apply negb_true_iff.
Qed.

Lemma plain_last (v : jsstring) (c : char) (r : jsstring) :
  forallb plain v = true -> v = r ++ [c] -> is_space c = false.
Proof.
  intros H ->. rewrite forallb_app in H. apply andb_true_iff in H as [_ H].
  simpl in H. rewrite andb_true_r in H. unfold plain in H.
  apply andb_true_iff in H as [_ H]. now apply negb_true_iff.
Qed.

(** The sanitizer leaves a plain ending alone. *)
Lemma cleanFilename_app (u v : jsstring) :
  v <> [] -> forallb plain v = true ->
  cleanFilename (u ++ v) = core u ++ v.
Proof.
  intros NE P. unfold cleanFilename, core.
  destruct (u ++ v) as [|c0 r0] eqn:E.
  { apply app_eq_nil in E as [_ E]. contradiction. }
  rewrite <- E. rewrite strip_filter, filter_app, (filter_valid_plain _ P).
  rewrite collapse_app_plain by exact P.
  unfold trim, trimStart.
  rewrite dropWhile_app by (intros c r; now apply plain_head).
  apply trimEnd_fixed. intros c r H.
  destruct (exists_last NE) as (v' & c' & Ev).
  rewrite Ev, app_assoc in H. apply app_inj_tail in H as [_ <-].
  eapply plain_last; [exact P|exact Ev].
Qed.

Lemma core_valid (u : jsstring) (c : char) : In c (core u) -> valid c = true.
Proof.
  unfold core. intros H.
  destruct (dropWhile_suffix is_space (collapseSpaces false (filter valid u)))
    as [w [E _]].
  assert (I : In c (collapseSpaces false (filter valid u)))
    by (rewrite E; apply in_or_app; now right).
  apply collapse_In in I as [->|I]; [reflexivity|].
  now apply filter_In in I.
Qed.

(** The stem, the separator of the track number: what is left of them ends
    with the dash and the space. *)
Lemma core_separator (stem : jsstring) :
  exists z, core (stem ++ str " - ") = z ++ str "- ".
Proof.
  unfold core. rewrite filter_app.
  change (filter valid (str " - ")) with ([32%N] ++ 45%N :: [32%N]).
  rewrite app_assoc.
  rewrite collapse_app_at by reflexivity.
  change (45%N :: collapseSpaces false [32%N]) with (str "- ").
  rewrite dropWhile_app by (intros c r H; injection H as <- _; reflexivity).
  eexists. reflexivity.
Qed.

End CleanedNames.

Section Extensions.

Lemma takeWhile_all (p : char -> bool) (s : jsstring) :
  forallb p s = true -> takeWhile p s = s.
Proof.
  induction s as [|c s IH]; simpl; [reflexivity|].
  intros H. apply andb_true_iff in H as [H1 H2]. now rewrite H1, IH.
Qed.

Lemma takeWhile_app_stop (p : char -> bool) (s r : jsstring) (c : char) :
  forallb p s = true -> p c = false -> takeWhile p (s ++ c :: r) = s.
Proof.
  induction s as [|x s IH]; simpl; intros H C.
  - now rewrite C.
  - apply andb_true_iff in H as [H1 H2]. now rewrite H1, IH.
Qed.

Lemma dropWhile_app_stop (p : char -> bool) (s r : jsstring) (c : char) :
  forallb p s = true -> p c = false -> dropWhile p (s ++ c :: r) = c :: r.
Proof.
  induction s as [|x s IH]; simpl; intros H C.
  - now rewrite C.
  - apply andb_true_iff in H as [H1 H2]. now rewrite H1, IH.
Qed.

Lemma forallb_rev (p : char -> bool) (s : jsstring) :
  forallb p (rev s) = forallb p s.
Proof.
  induction s as [|c s IH]; simpl; [reflexivity|].
  rewrite forallb_app, IH. simpl. rewrite andb_true_r. apply andb_comm.
Qed.

Lemma lastComponent_plain (s : jsstring) :
  forallb Path.not_slash s = true -> Path.lastComponent s = s.
Proof.
  intros H. unfold Path.lastComponent.
  assert (R : forallb Path.not_slash (rev s) = true) by now rewrite forallb_rev.
  rewrite dropWhile_fixed.
  - rewrite takeWhile_all by exact R. apply rev_involutive.
  - intros c r E. rewrite E in R. simpl in R.
    apply andb_true_iff in R as [R _]. unfold Path.not_slash in R.
    now apply negb_true_iff.
Qed.

Lemma extChar_not_slash (e : jsstring) :
  forallb extChar e = true -> forallb Path.not_slash e = true.
Proof.
  intros H. rewrite forallb_forall in *. intros c Hc. specialize (H c Hc).
  unfold extChar in H. rewrite !andb_true_iff in H. tauto.
Qed.

Lemma extChar_not_dot (e : jsstring) :
  forallb extChar e = true -> forallb Path.not_dot e = true.
Proof.
  intros H. rewrite forallb_forall in *. intros c Hc. specialize (H c Hc).
  unfold extChar in H. rewrite !andb_true_iff in H. tauto.
Qed.

Lemma extChar_plain (e : jsstring) :
  forallb extChar e = true -> forallb plain e = true.
Proof.
  intros H. rewrite forallb_forall in *. intros c Hc. specialize (H c Hc).
  unfold extChar in H. rewrite !andb_true_iff in H. tauto.
Qed.

(** A name made of a text without slash, a dot and an extension has that
    extension. *)
Lemma extname_app (x e : jsstring) :
  x <> [] -> e <> [] ->
  forallb Path.not_slash x = true -> forallb extChar e = true ->
  Path.extname (x ++ Path.dot :: e) = Path.dot :: e.
Proof.
  intros X E Sx Se. unfold Path.extname.
  rewrite lastComponent_plain.
  2:{ rewrite forallb_app, Sx. simpl. now rewrite extChar_not_slash. }
  rewrite rev_app_distr. simpl rev. rewrite <- app_assoc. simpl app.
  assert (D : forallb Path.not_dot (rev e) = true)
    by (rewrite forallb_rev; now apply extChar_not_dot).
  assert (ND : Path.not_dot Path.dot = false) by reflexivity.
  rewrite dropWhile_app_stop, takeWhile_app_stop by assumption.
  rewrite rev_involutive.
  destruct (rev x) eqn:R.
  { apply (f_equal (@rev char)) in R. rewrite rev_involutive in R.
    simpl in R. contradiction. }
  assert (L : string_eqb (x ++ Path.dot :: e) Path.dotdot = false).
  { apply string_eqb_neq. intros H. apply (f_equal (@List.length char)) in H.
    rewrite length_app in H. simpl in H.
    destruct x; [contradiction|]. destruct e; [contradiction|].
    simpl in H. lia. }
  now rewrite L.
Qed.


Lemma alnum_extChar (c : char) :
  (65 <= c <= 90 \/ 97 <= c <= 122 \/ 48 <= c <= 57)%N -> extChar c = true.
Proof.
  intros R.
  unfold extChar, plain, valid, invalidChars, is_space, Path.not_slash,
    Path.not_dot, Path.is_slash, Path.slash, Path.dot, char_eqb.
  cbn [existsb].
  repeat match goal with
         | |- context [(?a =? ?b)%N] =>
             destruct (N.eqb_spec a b); [exfalso; lia|]
         | |- context [(?a <=? ?b)%N] => destruct (N.leb_spec a b)
         end; cbn; try reflexivity; exfalso; lia.
Qed.

Lemma lower_letter (c : char) :
  ((97 <=? lower c) && (lower c <=? 122) || is_digit (lower c))%N = true ->
  extChar c = true.
Proof.
  intros Hl. apply alnum_extChar. revert Hl. unfold lower, is_digit.
  destruct (N.leb_spec 65 c), (N.leb_spec c 90); cbn [andb]; intros Hl;
    try lia;
    rewrite orb_true_iff, !andb_true_iff, !N.leb_le in Hl; lia.
Qed.

Lemma lower_dot (c : char) : lower c = Path.dot -> c = Path.dot.
Proof.
  unfold lower, Path.dot.
  destruct (N.leb_spec 65 c), (N.leb_spec c 90); cbn [andb]; intros Hl; lia.
Qed.

(** The extension of an audio file: a dot and letters or digits. *)
Lemma audio_extension (x : jsstring) :
  has (toLowerCase x) audioExtensions = true ->
  exists e, x = Path.dot :: e /\ e <> [] /\ forallb extChar e = true.
Proof.
  unfold has, audioExtensions. cbn [existsb]. rewrite !orb_true_iff.
  assert (G : forall lit, forallb (fun k => (97 <=? k) && (k <=? 122) || is_digit k)%N lit = true ->
              lit <> [] ->
              string_eqb (toLowerCase x) (Path.dot :: lit) = true ->
              exists e, x = Path.dot :: e /\ e <> [] /\ forallb extChar e = true).
  { intros lit L NE H. apply string_eqb_eq in H.
    destruct x as [|c0 e]; [discriminate|]. simpl in H.
    injection H as H0 H. apply lower_dot in H0. subst c0.
    exists e. split; [reflexivity|]. split.
    - intros ->. simpl in H. symmetry in H. contradiction.
    - clear NE. revert lit L H. induction e as [|c e IH]; intros lit L H;
        [reflexivity|].
      destruct lit as [|k lit]; [discriminate|]. simpl in H, L.
      injection H as Hc H. apply andb_true_iff in L as [Lk L].
      simpl. rewrite (IH _ L H), andb_true_r.
      apply lower_letter. now rewrite Hc. }
  intros H.
  repeat (destruct H as [H|H]; [eapply G; [| |exact H]; [reflexivity|discriminate]|]).
  discriminate.
Qed.

End Extensions.

Section KeyStrings.

Lemma splitDigitRuns_cons (s : jsstring) :
  exists p rest, splitDigitRuns s = p :: rest.
Proof.
  destruct s as [|c s]; simpl; [eauto|].
  destruct (splitDigitRuns s) as [|p0 rest]; [eauto|].
  destruct (is_digit c); [|eauto].
  destruct p0; [destruct rest|]; eauto.
Qed.

Lemma splitDigitRuns_single (s : jsstring) : splitDigitRuns s = [[]] -> s = [].
Proof.
  destruct s as [|c s]; simpl; [reflexivity|].
  destruct (splitDigitRuns s) as [|p0 rest]; [discriminate|].
  destruct (is_digit c); [|discriminate].
  destruct p0; [destruct rest|]; discriminate.
Qed.

(** A run of digits in front of a text. *)
Lemma splitDigitRuns_digits (d v : jsstring) :
  d <> [] -> all_digits d = true ->
  (forall c r, v = c :: r -> is_digit c = false) ->
  splitDigitRuns (d ++ v) = [] :: d :: splitDigitRuns v.
Proof.
  intros NE D V. induction d as [|c d IH]; [contradiction|].
  simpl in D. apply andb_true_iff in D as [Dc D].
  destruct d as [|c' d'].
  - simpl. rewrite Dc.
    destruct v as [|x v'].
    + reflexivity.
    + specialize (V x v' eq_refl).
      change (splitDigitRuns (x :: v'))
        with (match splitDigitRuns v' with
              | p0 :: rest =>
                  if is_digit x then
                    match p0, rest with
                    | [], d :: rest' => [] :: (x :: d) :: rest'
                    | _, _ => [] :: [x] :: p0 :: rest
                    end
                  else (x :: p0) :: rest
              | [] => [[x]]
              end).
      rewrite V. now destruct (splitDigitRuns v').
  - change (splitDigitRuns ((c :: c' :: d') ++ v))
      with (match splitDigitRuns ((c' :: d') ++ v) with
            | p0 :: rest =>
                if is_digit c then
                  match p0, rest with
                  | [], d :: rest' => [] :: (c :: d) :: rest'
                  | _, _ => [] :: [c] :: p0 :: rest
                  end
                else (c :: p0) :: rest
            | [] => [[c]]
            end).
    rewrite IH by (auto; discriminate). now rewrite Dc.
Qed.

(** A text in front of a run of digits. *)
Lemma splitDigitRuns_text (u w : jsstring) (c : char) (rest : list jsstring) :
  is_digit c = false -> splitDigitRuns w = [] :: rest ->
  splitDigitRuns ((u ++ [c]) ++ w) = splitDigitRuns (u ++ [c]) ++ rest.
Proof.
  intros C W. induction u as [|x u IH].
  - simpl. now rewrite W, C.
  - change (splitDigitRuns (((x :: u) ++ [c]) ++ w))
      with (match splitDigitRuns ((u ++ [c]) ++ w) with
            | p0 :: rest =>
                if is_digit x then
                  match p0, rest with
                  | [], d :: rest' => [] :: (x :: d) :: rest'
                  | _, _ => [] :: [x] :: p0 :: rest
                  end
                else (x :: p0) :: rest
            | [] => [[x]]
            end).
    change (splitDigitRuns ((x :: u) ++ [c]))
      with (match splitDigitRuns (u ++ [c]) with
            | p0 :: rest =>
                if is_digit x then
                  match p0, rest with
                  | [], d :: rest' => [] :: (x :: d) :: rest'
                  | _, _ => [] :: [x] :: p0 :: rest
                  end
                else (x :: p0) :: rest
            | [] => [[x]]
            end).
    rewrite IH.
    destruct (splitDigitRuns (u ++ [c])) as [|p0 rest'] eqn:E.
    { destruct (splitDigitRuns_cons (u ++ [c])) as (p & r & F). congruence. }
    simpl app. destruct (is_digit x); [|reflexivity].
    destruct p0 as [|y p0]; [|reflexivity].
    destruct rest' as [|d rest'']; [|reflexivity].
    apply splitDigitRuns_single in E. now destruct u.
Qed.

Lemma splitDigitRuns_middle (u d v : jsstring) (c : char) :
  is_digit c = false -> d <> [] -> all_digits d = true ->
  (forall x r, v = x :: r -> is_digit x = false) ->
  splitDigitRuns ((u ++ [c]) ++ d ++ v)
  = splitDigitRuns (u ++ [c]) ++ d :: splitDigitRuns v.
Proof.
  intros C NE D V.
  apply splitDigitRuns_text; [exact C|]. now apply splitDigitRuns_digits.
Qed.

Lemma join_app (sep : jsstring) (l1 l2 : list jsstring) :
  l1 <> [] -> l2 <> [] ->
  JS.join sep (l1 ++ l2) = JS.join sep l1 ++ sep ++ JS.join sep l2.
Proof.
  intros N1 N2. induction l1 as [|x l1 IH]; [contradiction|].
  destruct l1 as [|y l1].
  - simpl. now destruct l2.
  - change (JS.join sep ((x :: y :: l1) ++ l2))
      with (x ++ sep ++ JS.join sep ((y :: l1) ++ l2)).
    rewrite IH by discriminate.
    change (JS.join sep (x :: y :: l1)) with (x ++ sep ++ JS.join sep (y :: l1)).
    now rewrite <- !app_assoc.
Qed.

Lemma naturalSortKey_map (s : jsstring) :
  naturalSortKey s = map keyPartOf (splitDigitRuns s).
Proof. reflexivity. Qed.

(** The key string of a name made of a text, a track number and an
    extension. *)
Lemma keyString_middle (u d v : jsstring) (c : char) :
  is_digit c = false -> d <> [] -> all_digits d = true ->
  (forall x r, v = x :: r -> is_digit x = false) ->
  keyString ((u ++ [c]) ++ d ++ v)
  = (keyString (u ++ [c]) ++ str ",")
    ++ keyPart_toString (keyPartOf d) ++ str "," ++ keyString v.
Proof.
  intros C NE D V. unfold keyString, array_toString.
  rewrite !naturalSortKey_map, splitDigitRuns_middle by assumption.
  rewrite !map_app. cbn [map].
  destruct (splitDigitRuns_cons (u ++ [c])) as (p & r & E1).
  destruct (splitDigitRuns_cons v) as (q & r' & E2).
  rewrite E1, E2. cbn [map].
  rewrite join_app by discriminate.
  change (JS.join (str ",")
            (keyPart_toString (keyPartOf d)
             :: keyPart_toString (keyPartOf q)
             :: map keyPart_toString (map keyPartOf r')))
    with (keyPart_toString (keyPartOf d) ++ str ","
          ++ JS.join (str ",") (keyPart_toString (keyPartOf q)
                                :: map keyPart_toString (map keyPartOf r'))).
  now rewrite <- !app_assoc.
Qed.

Lemma trackDigits_small (k : nat) :
  (1 <= k <= 9)%nat ->
  trackDigits k = [48%N; (48 + N.of_nat k)%N]
  /\ keyPart_toString (keyPartOf (trackDigits k)) = [(48 + N.of_nat k)%N].
Proof.
  intros H.
  do 10 (destruct k as [|k]; [try (exfalso; lia); split; reflexivity|]).
  exfalso; lia.
Qed.

Lemma trackDigits_plain (k : nat) :
  (1 <= k <= 9)%nat ->
  trackDigits k <> [] /\ all_digits (trackDigits k) = true
  /\ forallb plain (trackDigits k) = true
  /\ forallb Path.not_slash (trackDigits k) = true.
Proof.
  intros H.
  do 10 (destruct k as [|k];
         [try (exfalso; lia); repeat split; try reflexivity; discriminate|]).
  exfalso; lia.
Qed.

End KeyStrings.

Section TrackNames.

Variable z : jsstring.
Hypothesis z_valid : forall c, In c z -> valid c = true.

Lemma valid_not_slash (c : char) : valid c = true -> Path.not_slash c = true.
Proof.
  unfold valid, invalidChars, Path.not_slash, Path.is_slash, Path.slash.
  cbn [existsb]. intros H. unfold char_eqb in *.
  destruct (c =? 47)%N; [|reflexivity].
  rewrite !orb_true_r in H. simpl in H. discriminate.
Qed.

Lemma trackName_extname (k : nat) (e : jsstring) :
  (1 <= k <= 9)%nat -> e <> [] -> forallb extChar e = true ->
  Path.extname (trackName z k (Path.dot :: e)) = Path.dot :: e.
Proof.
  intros K E X. unfold trackName. rewrite app_assoc.
  destruct (trackDigits_plain K) as (NE & _ & _ & S).
  apply extname_app; auto.
  - intros H. apply app_eq_nil in H as [_ H]. contradiction.
  - rewrite !forallb_app, S. simpl. rewrite !andb_true_r.
    apply forallb_forall. intros c Hc. now apply valid_not_slash, z_valid.
Qed.

Lemma trackName_key (k : nat) (e : jsstring) :
  (1 <= k <= 9)%nat ->
  keyString (trackName z k (Path.dot :: e))
  = (keyString (z ++ str "- ") ++ str ",")
    ++ (48 + N.of_nat k)%N :: str "," ++ keyString (Path.dot :: e).
Proof.
  intros K. unfold trackName.
  destruct (trackDigits_plain K) as (NE & D & _ & _).
  destruct (trackDigits_small K) as (_ & T).
  replace (z ++ str "- ") with ((z ++ [45%N]) ++ [32%N])
    by (now rewrite <- app_assoc).
  rewrite keyString_middle; auto.
  - now rewrite T.
  - intros x r H. injection H as <- _. reflexivity.
Qed.

Lemma trackName_lt (k k' : nat) (e e' : jsstring) :
  (1 <= k)%nat -> (k < k')%nat -> (k' <= 9)%nat ->
  keyLt (trackName z k (Path.dot :: e)) (trackName z k' (Path.dot :: e')).
Proof.
  intros K1 K2 K3. unfold keyLt.
  rewrite !trackName_key by lia. rewrite string_ltb_prefix.
  cbn [string_ltb].
  destruct (N.ltb_spec (48 + N.of_nat k) (48 + N.of_nat k')); [reflexivity|lia].
Qed.

End TrackNames.


Section FixedPoint.

Variable cfg : formatConfig.
Variables cleanAuthor seriesTitle bookNumber cleanTitle : jsstring.

Lemma deriveName_builds (n : nat) (a : jsstring) (i : nat) :
  buildsNames cfg = true ->
  deriveName cfg cleanAuthor seriesTitle bookNumber cleanTitle n a i
  = (stemOf cfg cleanAuthor seriesTitle bookNumber cleanTitle) ++ trackSuffix n i ++ Path.extname a.
Proof.
  unfold buildsNames, deriveName, stemOf, spec_baseName.
  destruct (string_eqb (fileFormat cfg) (str "full-details")); [reflexivity|].
  destruct (string_eqb (fileFormat cfg) (str "title-only")); [reflexivity|].
  discriminate.
Qed.


Lemma moves_names_In (dir : jsstring) (n : nat) (l : list jsstring) (k : nat)
  (x : jsstring) :
  In x (map newName (audioMoves cfg cleanAuthor seriesTitle bookNumber cleanTitle dir n l k)) ->
  exists a i, In a l /\ (k <= i < k + List.length l)%nat /\ x = newNameOf cfg cleanAuthor seriesTitle bookNumber cleanTitle n a i.
Proof.
  revert k; induction l as [|a l IH]; intros k; simpl; [contradiction|].
  intros [<-|H].
  - exists a, k. repeat split; auto; lia.
  - destruct (IH _ H) as (a' & i & Ha & Hi & E).
    exists a', i. repeat split; auto; lia.
Qed.

Lemma isAudio_extension (a : jsstring) :
  isAudio a = true ->
  exists e, Path.extname a = Path.dot :: e /\ e <> [] /\ forallb extChar e = true.
Proof. apply audio_extension. Qed.

(** Several tracks. *)
Section Several.

Variable n : nat.
Variable z : jsstring.
Hypothesis builds : buildsNames cfg = true.
Hypothesis several : (1 < n)%nat.
Hypothesis z_core : core ((stemOf cfg cleanAuthor seriesTitle bookNumber cleanTitle) ++ str " - ") = z ++ str "- ".

Lemma z_valid (c : char) : In c z -> valid c = true.
Proof.
  intros H. apply (core_valid ((stemOf cfg cleanAuthor seriesTitle bookNumber cleanTitle) ++ str " - ")). rewrite z_core.
  apply in_or_app. now left.
Qed.

Lemma nameOf_track (a : jsstring) (i : nat) :
  isAudio a = true -> (i + 1 <= 9)%nat ->
  newNameOf cfg cleanAuthor seriesTitle bookNumber cleanTitle n a i = trackName z (i + 1) (Path.extname a).
Proof.
  intros A I. unfold newNameOf. rewrite deriveName_builds by exact builds.
  unfold trackSuffix. apply Nat.ltb_lt in several. rewrite several.
  fold (trackDigits (i + 1)).
  destruct (isAudio_extension _ A) as (e & E & NE & X).
  destruct (@trackDigits_plain (i + 1)) as (_ & _ & P & _); [lia|].
  rewrite <- app_assoc, app_assoc.
  rewrite cleanFilename_app.
  - now rewrite z_core.
  - intros H. apply app_eq_nil in H as [_ H]. rewrite E in H. discriminate.
  - rewrite forallb_app, P, E. simpl. now rewrite (extChar_plain _ X).
Qed.

Lemma nameOf_extname (a : jsstring) (i : nat) :
  isAudio a = true -> (i + 1 <= 9)%nat ->
  Path.extname (newNameOf cfg cleanAuthor seriesTitle bookNumber cleanTitle n a i) = Path.extname a.
Proof.
  intros A I. rewrite nameOf_track by assumption.
  destruct (isAudio_extension _ A) as (e & E & NE & X). rewrite E.
  apply trackName_extname; auto; [apply z_valid|lia].
Qed.


Lemma nameOf_audio (a : jsstring) (i : nat) :
  isAudio a = true -> (i + 1 <= 9)%nat -> isAudio (newNameOf cfg cleanAuthor seriesTitle bookNumber cleanTitle n a i) = true.
Proof.
  intros A I. unfold isAudio. rewrite nameOf_extname by assumption. exact A.
Qed.

Lemma moves_sorted (dir : jsstring) (l : list jsstring) (k : nat) :
  forallb isAudio l = true -> (k + List.length l <= 9)%nat ->
  StronglySorted keyLt (map newName (audioMoves cfg cleanAuthor seriesTitle bookNumber cleanTitle dir n l k)).
Proof.
  revert k; induction l as [|a l IH]; intros k A K; simpl; [constructor|].
  simpl in A, K. apply andb_true_iff in A as [Aa A].
  constructor; [apply IH; [exact A|lia]|].
  apply Forall_forall. intros x Hx.
  apply moves_names_In in Hx as (a' & i & Ha & Hi & ->).
  fold (newNameOf cfg cleanAuthor seriesTitle bookNumber cleanTitle n a k).
  assert (A' : isAudio a' = true) by (rewrite forallb_forall in A; auto).
  rewrite !nameOf_track by (auto; lia).
  destruct (isAudio_extension _ Aa) as (e & -> & _).
  destruct (isAudio_extension _ A') as (e' & -> & _).
  apply trackName_lt; lia.
Qed.

Lemma moves_audio (dir : jsstring) (l : list jsstring) (k : nat) :
  forallb isAudio l = true -> (k + List.length l <= 9)%nat ->
  forallb isAudio (map newName (audioMoves cfg cleanAuthor seriesTitle bookNumber cleanTitle dir n l k)) = true.
Proof.
  revert k; induction l as [|a l IH]; intros k A K; simpl; [reflexivity|].
  simpl in A, K. apply andb_true_iff in A as [Aa A].
  fold (newNameOf cfg cleanAuthor seriesTitle bookNumber cleanTitle n a k). rewrite nameOf_audio by (auto; lia).
  apply IH; [exact A|lia].
Qed.


End Several.



End FixedPoint.

Section Rescan.

Lemma sortAudio_audio (allFiles : list jsstring) :
  forallb isAudio (sortAudio allFiles) = true.
Proof.
  apply forallb_forall. intros x Hx. unfold sortAudio in Hx.
  apply (Permutation_in _ (sort_perm _)) in Hx.
  now apply filter_In in Hx.
Qed.

Lemma has_In (x : jsstring) (l : list jsstring) : has x l = true <-> In x l.
Proof.
  unfold has. rewrite existsb_exists. split.
  - intros (y & Hy & E). apply string_eqb_eq in E. now subst.
  - intros H. exists x. split; [exact H|apply string_eqb_refl].
Qed.


Lemma otherMoves_names (dir : jsstring) (allFiles audioFiles : list jsstring) :
  map newName (otherMoves dir allFiles audioFiles)
  = filter (fun f => negb (has f audioFiles)) allFiles.
Proof.
  unfold otherMoves. rewrite map_map. cbn [newName]. apply map_id.
Qed.



Variable cfg : formatConfig.
Variables cleanAuthor seriesTitle bookNumber cleanTitle : jsstring.


End Rescan.


(** With ten tracks the order of the key strings puts the tenth track
    second, in the first scan and in the one that follows the execution. *)
Example ten_tracks_rescan :
  let plans := plansOf (scan Sample.tenTracksDisk (str "/lib") Sample.fullDetails) in
  let after := execute Sample.tenTracksDisk plans in
  map (firstn 3) (renamesOf plans)
  = [[(str "01.mp3", str "A - T - 01.mp3");
      (str "10.mp3", str "A - T - 02.mp3");
      (str "02.mp3", str "A - T - 03.mp3")]]
  /\ res after = {| applied := 1; errors := 0; collisions := [] |}
  /\ map (firstn 3)
         (renamesOf (plansOf (scan (disk after) (str "/lib") Sample.fullDetails)))
     = [[(str "A - T - 01.mp3", str "A - T - 01.mp3");
         (str "A - T - 10.mp3", str "A - T - 02.mp3");
         (str "A - T - 02.mp3", str "A - T - 03.mp3")]].
Proof.
  cbv zeta.
  split; [vm_compute; reflexivity|].
  split; [vm_compute; reflexivity|].
  vm_compute. reflexivity.
Qed.



(** ** Further witnesses and examples *)

Lemma C7_cleanFilename_sanitizes_witness :
  cleanFilename (cleanFilename (str "  AC/DC:  Back in   Black? "))
  = cleanFilename (str "  AC/DC:  Back in   Black? ")
  /\ ~ In 47%N (cleanFilename (str "  AC/DC:  Back in   Black? ")).
Proof.
  destruct (C7_cleanFilename_sanitizes (str "  AC/DC:  Back in   Black? "))
    as (V & _ & _ & _ & _ & I).
  split; [exact I|]. apply V. vm_compute. tauto.
Defined.

Lemma C6_reported_iff_changes_witness :
  exists b,
    In b (snd (scanLibrary Sample.strayDisk (str "/lib") Sample.fullDetails))
    /\ bookDir b = str "/lib/X" /\ targetDir b = str "/lib/A/T".
Proof.
  destruct (itemPlan Sample.strayDisk Sample.fullDetails (str "/lib")
                     (str "/lib/X/metadata.json")) as [b|] eqn:E;
    [|vm_compute in E; discriminate E].
  exists b.
  assert (D : bookDir b = str "/lib/X" /\ targetDir b = str "/lib/A/T").
  { vm_compute in E. injection E as <-. split; reflexivity. }
  split; [|exact D].
  apply (C6_reported_iff_changes Sample.strayDisk (str "/lib") Sample.fullDetails b).
  exists (str "/lib/X/metadata.json").
  split; [vm_compute; left; reflexivity|]. split; [exact E|].
  left. destruct D as [-> ->]. vm_compute. discriminate.
Defined.

Lemma C10_applied_counts_plans_witness :
  let plans := plansOf (scan Sample.collidingDisk (str "/lib") Sample.fullDetails) in
  applied (res (execute Sample.collidingDisk plans)) = 1%N
  /\ errors (res (execute Sample.collidingDisk plans)) = 0%N
  /\ collisions (res (execute Sample.collidingDisk plans)) = [str "A - T.mp3"].
Proof.
  cbv zeta.
  destruct (C10_applied_counts_plans Sample.collidingDisk
              (plansOf (scan Sample.collidingDisk (str "/lib") Sample.fullDetails)))
    as (A & E & _).
  split; [rewrite A; vm_compute; reflexivity|].
  split; [rewrite E; vm_compute; reflexivity|].
  vm_compute. reflexivity.
Defined.

Example path_normalize_examples :
  map Path.normalize [str "/lib//X/./a/../b/"; str "a/../../b"; str "/..";
                      str "./"; str "a/.."; str "/"]
  = [str "/lib/X/b/"; str "../b"; str "/"; str "./"; str "."; str "/"].
Proof. vm_compute. reflexivity. Qed.

Example path_dirname_examples :
  map Path.dirname [str "/lib/X/metadata.json"; str "/metadata.json";
                    str "metadata.json"; str "/a//b"; str "//a"; str "a/b/";
                    str "/"; str "a/"]
  = [str "/lib/X"; str "/"; str "."; str "/a/"; str "//"; str "a"; str "/";
     str "."].
Proof. vm_compute. reflexivity. Qed.

Example path_extname_examples :
  map Path.extname [str "track.mp3"; str ".mp3"; str "a."; str "a.b.c";
                    str ".."; str "..mp3"; str "x/y.z/"; str "a";
                    str ".index.md"; str "a.b/c"; str "..."]
  = [str ".mp3"; []; str "."; str ".c"; []; str ".mp3"; str ".z"; [];
     str ".md"; []; str "."].
Proof. vm_compute. reflexivity. Qed.

Example path_join_examples :
  map Path.join [[str "/lib"; str "A"; []; str "T"]; [[]; []];
                 [str "/lib"; str ".."; str "T"]; [str "/lib/A"; []];
                 [str "lib"; str "A/B"]]
  = [str "/lib/A/T"; str "."; str "/T"; str "/lib/A"; str "lib/A/B"].
Proof. vm_compute. reflexivity. Qed.

Example isNaN_examples :
  map isNaN [[]; str "7"; str "1e3"; str "-5"; str "0x1F"; str "x";
             str "Infinity"; str "1/2"; str "e3"; str " 12 "]
  = [false; false; false; false; false; true; false; true; true; false].
Proof. vm_compute. reflexivity. Qed.

Example parseInt_examples :
  map (fun s => number_toString (parseInt s))
      [str "007"; []; str "10"; str "-0"; str " -12x"; str "0x1f"]
  = [str "7"; str "NaN"; str "10"; str "0"; str "-12"; str "31"].
Proof. vm_compute. reflexivity. Qed.

Example cleanMetadata_examples :
  map cleanMetadata [JStr (str "Smith, John"); JArr [JStr (str " x ")];
                     JStr (str "['abc']"); JNum (str "3"); JArr []; JNull]
  = [str "Smith"; str "x"; str "abc"; str "3"; []; []].
Proof. vm_compute. reflexivity. Qed.

Example keyString_examples :
  map keyString [str "track2.mp3"; str "01.mp3"; str "Infinity.x"; str " .mp3"]
  = [str "track,2,.mp,3,NaN"; str "NaN,1,.mp,3,NaN"; str "infinity.x";
     str " .mp,3,NaN"].
Proof. vm_compute. reflexivity. Qed.

(** * Further properties of the code *)

(** ** The sanitizer: when a name vanishes *)

Section Vanishing.

Lemma dropWhile_nil_iff (p : char -> bool) (s : jsstring) :
  dropWhile p s = [] <-> forallb p s = true.
Proof.
  induction s as [|c s IH]; simpl; [tauto|].
  destruct (p c); simpl; [exact IH|]. split; discriminate.
Qed.

Lemma trim_nil_iff (s : jsstring) : trim s = [] <-> forallb is_space s = true.
Proof.
  unfold trim, trimStart, trimEnd. split.
  - intros H. apply (f_equal (@rev char)) in H. rewrite rev_involutive in H.
    simpl in H. apply dropWhile_nil_iff in H. rewrite forallb_rev in H.
    destruct (dropWhile_suffix is_space s) as [w [E F]].
    rewrite E, forallb_app, F, H. reflexivity.
  - intros H. apply dropWhile_nil_iff in H. now rewrite H.
Qed.

Lemma collapse_spaces_iff (b : bool) (s : jsstring) :
  forallb is_space (collapseSpaces b s) = forallb is_space s.
Proof.
  revert b; induction s as [|c s IH]; intros b; simpl; [reflexivity|].
  destruct (is_space c) eqn:C; [destruct b|]; simpl; rewrite ?C, ?IH;
    reflexivity.
Qed.

Lemma filter_spaces_iff (s : jsstring) :
  forallb is_space (filter valid s) = forallb dropped s.
Proof.
  induction s as [|c s IH]; simpl; [reflexivity|]. unfold dropped at 1.
  destruct (valid c) eqn:V; simpl; now rewrite IH.
Qed.

Lemma collapse_length (b : bool) (s : jsstring) :
  (List.length (collapseSpaces b s) <= List.length s)%nat.
Proof.
  revert b; induction s as [|c s IH]; intros b; simpl; [lia|].
  pose proof (IH true). pose proof (IH false).
  destruct (is_space c); [destruct b|]; simpl; lia.
Qed.

Lemma dropWhile_length (p : char -> bool) (s : jsstring) :
  (List.length (dropWhile p s) <= List.length s)%nat.
Proof.
  induction s as [|c s IH]; simpl; [lia|]. destruct (p c); simpl; lia.
Qed.

Lemma trim_length (s : jsstring) : (List.length (trim s) <= List.length s)%nat.
Proof.
  unfold trim, trimStart, trimEnd. rewrite length_rev.
  pose proof (dropWhile_length is_space (rev (dropWhile is_space s))) as H1.
  pose proof (dropWhile_length is_space s) as H2.
  rewrite length_rev in H1. lia.
Qed.

End Vanishing.

(** X1.  The sanitized name is empty exactly when the name holds nothing but
    invalid characters and white space, and it is never longer than the
    name. *)
Theorem X1_cleanFilename_empty_iff (name : jsstring) :
  (cleanFilename name = [] <-> forallb dropped name = true)
  /\ (List.length (cleanFilename name) <= List.length name)%nat.
Proof.
  unfold cleanFilename. destruct name as [|c0 r0]; [simpl; split; [tauto|lia]|].
  rewrite strip_filter. split.
  - rewrite trim_nil_iff, collapse_spaces_iff, filter_spaces_iff. tauto.
  - pose proof (trim_length (collapseSpaces false (filter valid (c0 :: r0)))).
    pose proof (collapse_length false (filter valid (c0 :: r0))).
    pose proof (filter_length_le valid (c0 :: r0)). lia.
Qed.

(** ** The metadata normalizer *)

Section Normalizer.

Lemma takeWhile_In (p : char -> bool) (s : jsstring) (c : char) :
  In c (takeWhile p s) -> In c s /\ p c = true.
Proof.
  induction s as [|x s IH]; simpl; [tauto|].
  destruct (p x) eqn:P; simpl; [|tauto].
  intros [<-|H]; [auto|]. destruct (IH H). auto.
Qed.

Lemma dropWhile_In (p : char -> bool) (s : jsstring) (c : char) :
  In c (dropWhile p s) -> In c s.
Proof.
  intros H. destruct (dropWhile_suffix p s) as [w [E _]]. rewrite E.
  apply in_or_app. now right.
Qed.

Lemma beforeFirst_without (c : char) (s : jsstring) :
  ~ In c (beforeFirst c s).
Proof.
  unfold beforeFirst. intros H. apply takeWhile_In in H as [_ H].
  unfold char_eqb in H. now rewrite N.eqb_refl in H.
Qed.

Lemma includes_In (c : char) (s : jsstring) : includes c s = true <-> In c s.
Proof.
  unfold includes. rewrite existsb_exists. split.
  - intros (x & Hx & E). apply N.eqb_eq in E. now subst.
  - intros H. exists c. split; [exact H|apply N.eqb_refl].
Qed.

Lemma stripListOpen_In (s : jsstring) (c : char) :
  In c (stripListOpen s) -> In c s.
Proof.
  unfold stripListOpen. destruct s as [|b [|q r]]; auto.
  destruct ((b =? 91)%N && _); simpl; auto.
Qed.

Lemma stripListClose_In (s : jsstring) (c : char) :
  In c (stripListClose s) -> In c s.
Proof.
  unfold stripListClose. destruct (rev s) as [|b [|q r]] eqn:R; auto.
  destruct ((b =? 93)%N && _); auto.
  intros H. apply in_rev in H. apply in_rev. rewrite R. simpl. auto.
Qed.

(** What the clean-up of a scalar text gives. *)
Lemma scalar_clean (s : jsstring) :
  let t := trim (stripListClose (stripListOpen
             (if includes comma s then hd [] (split comma s) else s))) in
  ~ In comma t /\ trimmed t.
Proof.
  cbv zeta. split.
  - intros H. apply trim_In, stripListClose_In, stripListOpen_In in H.
    destruct (includes comma s) eqn:I.
    + rewrite split_unfold in H. simpl in H.
      now apply beforeFirst_without in H.
    + apply includes_In in H. congruence.
  - split; intros c r E; [eapply trim_first|eapply trimEnd_last]; exact E.
Qed.

End Normalizer.

Lemma cleanMetadata_value :
  forall value : json,
    ~ In comma (cleanMetadata value) /\ trimmed (cleanMetadata value).
Proof.
  fix IH 1. intros value.
  assert (Nil : ~ In comma [] /\ trimmed []).
  { split; [tauto|]. split; intros c r E; [discriminate|].
    destruct r; discriminate. }
  destruct value as [|b|text|s|items|props]; try exact Nil;
    try apply scalar_clean.
  destruct items as [|first rest]; [exact Nil|].
  exact (IH first).
Qed.

(** X2.  Whatever the value of a metadata field (text, number, list, nested
    list, object), the cleaned text holds no comma and has no white space at
    either end. *)
Theorem X2_cleanMetadata_clean (value : json) :
  ~ In comma (cleanMetadata value) /\ trimmed (cleanMetadata value).
Proof. exact (cleanMetadata_value value). Qed.

Section Fields.






End Fields.


(** ** The sort and its comparison function *)

Lemma string_ltb_total (a b : jsstring) :
  string_ltb a b = false -> string_ltb b a = false -> a = b.
Proof.
  revert b; induction a as [|x a IH]; intros [|y b]; simpl;
    try discriminate; try reflexivity.
  destruct (N.ltb_spec x y), (N.ltb_spec y x); try discriminate; try lia.
  intros H1 H2. assert (x = y) by lia. subst. f_equal. now apply IH.
Qed.

Lemma sortAudio_In (allFiles : list jsstring) (f : jsstring) :
  In f (sortAudio allFiles) <-> In f allFiles /\ isAudio f = true.
Proof.
  rewrite <- filter_In. split; apply Permutation_in.
  - apply sort_perm.
  - apply Permutation_sym, sort_perm.
Qed.

(** X4.  The audio files the scan numbers are the entries of the listing
    that have an audio extension, each as often as it is listed (none lost,
    none added), in non-decreasing order of their key strings. *)
Theorem X4_sortAudio_sorted_permutation (allFiles : list jsstring) :
  Permutation (sortAudio allFiles) (filter isAudio allFiles)
  /\ StronglySorted keyLe (sortAudio allFiles)
  /\ (forall f, In f (sortAudio allFiles) <-> In f allFiles /\ isAudio f = true).
Proof.
  split; [apply sort_perm|]. split; [apply sort_sorted|].
  intros f. apply sortAudio_In.
Qed.

(** X5.  The comparison function of the sort is consistent: it gives 0
    exactly for two names with the same key string, exchanging the names
    changes the sign, and "not greater" is transitive; its value is always
    -1, 0 or 1. *)
Theorem X5_compareFn_consistent (a b c : jsstring) :
  (compareFn a b = 0%Z <-> keyString a = keyString b)
  /\ compareFn b a = (- compareFn a b)%Z
  /\ ((compareFn a b <= 0)%Z -> (compareFn b c <= 0)%Z -> (compareFn a c <= 0)%Z)
  /\ (compareFn a b = (-1)%Z \/ compareFn a b = 0%Z \/ compareFn a b = 1%Z).
Proof.
  assert (U : forall x y, compareFn x y
              = if string_ltb (keyString x) (keyString y) then (-1)%Z
                else if string_ltb (keyString y) (keyString x) then 1%Z else 0%Z)
    by reflexivity.
  rewrite !U. split; [|split; [|split]].
  - destruct (string_ltb (keyString a) (keyString b)) eqn:E1.
    + split; [discriminate|]. intros H. rewrite H, string_ltb_irrefl in E1.
      discriminate.
    + destruct (string_ltb (keyString b) (keyString a)) eqn:E2.
      * split; [discriminate|]. intros H. rewrite H, string_ltb_irrefl in E2.
        discriminate.
      * split; [|reflexivity]. intros _. now apply string_ltb_total.
  - destruct (string_ltb (keyString a) (keyString b)) eqn:E1.
    + now rewrite (string_ltb_asym _ _ E1).
    + now destruct (string_ltb (keyString b) (keyString a)).
  - rewrite <- !U. intros H1 H2.
    apply Z.leb_le in H1, H2. apply Z.leb_le.
    rewrite compareFn_le, negb_true_iff in *.
    destruct (string_ltb (keyString c) (keyString a)) eqn:E; [|reflexivity].
    destruct (string_ltb (keyString b) (keyString c)) eqn:F.
    + pose proof (string_ltb_trans _ _ _ F E). congruence.
    + rewrite (string_ltb_total _ _ F H2) in H1. congruence.
  - destruct (string_ltb (keyString a) (keyString b)); [auto|].
    destruct (string_ltb (keyString b) (keyString a)); auto.
Qed.

(** ** The move plan *)

Section MovePlan.

Variable cfg : formatConfig.
Variables cleanAuthor seriesTitle bookNumber cleanTitle dir : jsstring.

Lemma audioMoves_oldNames (n : nat) (l : list jsstring) (k : nat) :
  map oldName (audioMoves cfg cleanAuthor seriesTitle bookNumber cleanTitle dir
                          n l k) = l.
Proof.
  revert k; induction l as [|a l IH]; intros k; simpl; [reflexivity|].
  now rewrite IH.
Qed.

Lemma audioMoves_In (n : nat) (l : list jsstring) (k : nat) (m : fileMove) :
  In m (audioMoves cfg cleanAuthor seriesTitle bookNumber cleanTitle dir n l k) ->
  type m = audio /\ In (oldName m) l
  /\ oldPath m = Path.join [dir; oldName m]
  /\ sanitized (newName m).
Proof.
  revert k; induction l as [|a l IH]; intros k; simpl; [contradiction|].
  intros [<-|H].
  - cbn [type oldName oldPath newName]. repeat split; auto.
    all: apply cleanFilename_sanitized.
  - destruct (IH _ H) as (T & I & P & S). auto.
Qed.

Lemma otherMoves_In (allFiles audioFiles : list jsstring) (m : fileMove) :
  In m (otherMoves dir allFiles audioFiles) ->
  type m = other /\ newName m = oldName m
  /\ In (oldName m) allFiles /\ has (oldName m) audioFiles = false
  /\ oldPath m = Path.join [dir; oldName m].
Proof.
  unfold otherMoves. rewrite in_map_iff. intros (f & <- & H).
  apply filter_In in H as [H1 H2]. apply negb_true_iff in H2.
  cbn [type oldName oldPath newName]. auto.
Qed.

Lemma partition_perm (p : jsstring -> bool) (l : list jsstring) :
  Permutation (filter p l ++ filter (fun f => negb (p f)) l) l.
Proof.
  induction l as [|x l IH]; simpl; [constructor|].
  destruct (p x); simpl.
  - now constructor.
  - rewrite <- Permutation_middle. now constructor.
Qed.

Lemma others_are_not_audio (allFiles : list jsstring) :
  filter (fun f => negb (has f (sortAudio allFiles))) allFiles
  = filter (fun f => negb (isAudio f)) allFiles.
Proof.
  apply filter_ext_in. intros f Hf. f_equal.
  destruct (isAudio f) eqn:A.
  - apply has_In, sortAudio_In. auto.
  - destruct (has f (sortAudio allFiles)) eqn:H; [|reflexivity].
    apply has_In, sortAudio_In in H as [_ H]. congruence.
Qed.

End MovePlan.

Lemma planItem_oldPath (cfg : formatConfig) (libraryPath : jsstring)
  (f : fields) (dir : jsstring) (allFiles : list jsstring) (m : fileMove) :
  In m (movePlan (planItem cfg libraryPath f dir allFiles)) ->
  oldPath m = Path.join [dir; oldName m].
Proof.
  unfold planItem.
  destruct (parseSeries (f_seriesField f)) as [seriesTitle bookNumber].
  cbn [movePlan]. unfold buildMovePlan.
  intros Hm. apply in_app_or in Hm as [Hm|Hm].
  - now apply audioMoves_In in Hm.
  - now apply otherMoves_In in Hm.
Qed.

(** X6.  The plan of an item holds one file move for every entry of the
    directory listing, no entry left out and none twice: the old names of
    the moves are the listing, in another order.  The old path of every move
    is the item directory joined with the old name. *)
Theorem X6_plan_covers_listing (cfg : formatConfig) (libraryPath : jsstring)
  (f : fields) (dir : jsstring) (allFiles : list jsstring) :
  let b := planItem cfg libraryPath f dir allFiles in
  Permutation (map oldName (movePlan b)) allFiles
  /\ List.length (movePlan b) = List.length allFiles
  /\ (forall m, In m (movePlan b) -> oldPath m = Path.join [dir; oldName m])
  /\ bookDir b = dir.
Proof.
  cbv zeta.
  pose proof (@planItem_oldPath cfg libraryPath f dir allFiles) as Old.
  revert Old. unfold planItem.
  destruct (parseSeries (f_seriesField f)) as [seriesTitle bookNumber].
  cbn [movePlan bookDir]. unfold buildMovePlan. intros Old.
  assert (P : Permutation
                (map oldName
                   (audioMoves cfg (cleanFilename (f_author f)) seriesTitle
                      bookNumber (cleanFilename (f_bookTitle f)) dir
                      (List.length (sortAudio allFiles)) (sortAudio allFiles) 0
                    ++ otherMoves dir allFiles (sortAudio allFiles)))
                allFiles).
  { rewrite map_app, audioMoves_oldNames.
    assert (O : map oldName (otherMoves dir allFiles (sortAudio allFiles))
                = filter (fun f => negb (isAudio f)) allFiles).
    { unfold otherMoves. rewrite map_map. cbn [oldName]. rewrite map_id.
      apply others_are_not_audio. }
    rewrite O. unfold sortAudio at 1. rewrite sort_perm.
    apply partition_perm. }
  split; [exact P|]. split; [|split; [exact Old|reflexivity]].
  apply Permutation_length in P. now rewrite length_map in P.
Qed.

(** X7.  In the plan of an item a file move is of type audio exactly when
    the old name is recognized as an audio file by its extension; the new
    name of an audio move is in sanitized form; a move of the other type
    keeps the name. *)
Theorem X7_move_types (cfg : formatConfig) (libraryPath : jsstring)
  (f : fields) (dir : jsstring) (allFiles : list jsstring) (m : fileMove) :
  In m (movePlan (planItem cfg libraryPath f dir allFiles)) ->
  (type m = audio <-> isAudio (oldName m) = true)
  /\ (type m = audio -> sanitized (newName m))
  /\ (type m = other -> newName m = oldName m).
Proof.
  unfold planItem.
  destruct (parseSeries (f_seriesField f)) as [seriesTitle bookNumber].
  cbn [movePlan]. unfold buildMovePlan. intros Hm.
  apply in_app_or in Hm as [Hm|Hm].
  - apply audioMoves_In in Hm as (T & I & _ & S).
    apply sortAudio_In in I as [_ I].
    rewrite T. split; [split; auto|].
    split; [auto|intros D; discriminate D].
  - apply otherMoves_In in Hm as (T & N & I & H & _).
    rewrite T. split; [split; [intros D; discriminate D|]|].
    + intros A. exfalso.
      assert (has (oldName m) (sortAudio allFiles) = true); [|congruence].
      apply has_In, sortAudio_In. auto.
    + split; [intros D; discriminate D|auto].
Qed.

Lemma X7_move_types_witness :
  let m := {| oldName := str "cover.jpg"; newName := str "cover.jpg";
              oldPath := str "/lib/X/cover.jpg"; type := other |} in
  (type m = audio <-> isAudio (oldName m) = true)
  /\ (type m = audio -> sanitized (newName m))
  /\ (type m = other -> newName m = oldName m).
Proof.
  cbv zeta.
  apply (@X7_move_types Sample.fullDetails (str "/lib")
           (Sample.mistborn "Mistborn #1" "The Final Empire")
           (str "/lib/X") Sample.twoTracks).
  vm_compute. do 2 right. left. reflexivity.
Defined.

(** ** Audio extensions *)

Section LetterCase.

Lemma lower_idempotent (c : char) : lower (lower c) = lower c.
Proof.
  unfold lower. destruct ((65 <=? c) && (c <=? 90))%N eqn:E.
  - apply andb_true_iff in E as [E1 E2]. apply N.leb_le in E1, E2.
    assert (((65 <=? c + 32) && (c + 32 <=? 90))%N = false) as ->;
      [|reflexivity].
    apply andb_false_iff. right. apply N.leb_gt. lia.
  - now rewrite E.
Qed.

Lemma lower_is_slash (c : char) : Path.is_slash (lower c) = Path.is_slash c.
Proof.
  unfold Path.is_slash, Path.slash, char_eqb, lower.
  destruct (N.leb_spec 65 c), (N.leb_spec c 90); cbn [andb]; try reflexivity.
  destruct (N.eqb_spec (c + 32) 47), (N.eqb_spec c 47); try reflexivity; lia.
Qed.

Lemma lower_not_slash (c : char) : Path.not_slash (lower c) = Path.not_slash c.
Proof. unfold Path.not_slash. now rewrite lower_is_slash. Qed.

Lemma lower_not_dot (c : char) : Path.not_dot (lower c) = Path.not_dot c.
Proof.
  unfold Path.not_dot, Path.dot, char_eqb, lower.
  destruct (N.leb_spec 65 c), (N.leb_spec c 90); cbn [andb]; try reflexivity.
  destruct (N.eqb_spec (c + 32) 46), (N.eqb_spec c 46); try reflexivity; lia.
Qed.

Lemma dropWhile_map (p : char -> bool) (g : char -> char) (s : jsstring) :
  (forall c, p (g c) = p c) ->
  dropWhile p (map g s) = map g (dropWhile p s).
Proof.
  intros H. induction s as [|c s IH]; simpl; [reflexivity|].
  rewrite H. now destruct (p c).
Qed.

Lemma takeWhile_map (p : char -> bool) (g : char -> char) (s : jsstring) :
  (forall c, p (g c) = p c) ->
  takeWhile p (map g s) = map g (takeWhile p s).
Proof.
  intros H. induction s as [|c s IH]; simpl; [reflexivity|].
  rewrite H. destruct (p c); simpl; now rewrite ?IH.
Qed.

Lemma lastComponent_lower (s : jsstring) :
  Path.lastComponent (toLowerCase s) = toLowerCase (Path.lastComponent s).
Proof.
  unfold Path.lastComponent, toLowerCase.
  rewrite <- map_rev, dropWhile_map by apply lower_is_slash.
  rewrite takeWhile_map by apply lower_not_slash.
  now rewrite map_rev.
Qed.

Lemma lower_is_dot (c : char) :
  char_eqb (lower c) Path.dot = char_eqb c Path.dot.
Proof.
  pose proof (lower_not_dot c) as H. unfold Path.not_dot in H.
  apply (f_equal negb) in H. now rewrite !negb_involutive in H.
Qed.

Lemma dotdot_lower (s : jsstring) :
  string_eqb (toLowerCase s) Path.dotdot = string_eqb s Path.dotdot.
Proof.
  unfold Path.dotdot, toLowerCase.
  destruct s as [|a [|b [|c r]]]; cbn [map string_eqb];
    now rewrite ?lower_is_dot.
Qed.

Lemma extname_lower (s : jsstring) :
  Path.extname (toLowerCase s) = toLowerCase (Path.extname s).
Proof.
  unfold Path.extname. rewrite lastComponent_lower, dotdot_lower.
  unfold toLowerCase at 1 2. rewrite <- !map_rev.
  rewrite dropWhile_map, takeWhile_map by apply lower_not_dot.
  destruct (dropWhile Path.not_dot (rev (Path.lastComponent s)))
    as [|d before] eqn:D; [reflexivity|].
  cbn [map]. destruct before as [|b before']; [reflexivity|]. cbn [map].
  destruct (string_eqb (Path.lastComponent s) Path.dotdot); [reflexivity|].
  unfold toLowerCase. cbn [map]. now rewrite map_rev.
Qed.

End LetterCase.

(** X8.  Whether a name is recognized as an audio file does not depend on
    the case of its (Basic Latin) letters: two names with the same
    lower-case form are recognized alike. *)
Theorem X8_isAudio_ignores_case (f g : jsstring) :
  toLowerCase f = toLowerCase g -> isAudio f = isAudio g.
Proof.
  assert (L : forall x, isAudio x = isAudio (toLowerCase x)).
  { intros x. unfold isAudio. rewrite extname_lower. f_equal.
    unfold toLowerCase. rewrite map_map. apply map_ext.
    intros c. symmetry. apply lower_idempotent. }
  intros H. now rewrite (L f), (L g), H.
Qed.

Lemma X8_isAudio_ignores_case_witness :
  isAudio (str "Track.MP3") = isAudio (str "tRACK.mp3").
Proof.
  apply X8_isAudio_ignores_case. vm_compute. reflexivity.
Defined.

(** ** The statistics *)

Section Statistics.

Lemma add_In (x y : jsstring) (s : list jsstring) :
  In y (add x s) <-> y = x \/ In y s.
Proof.
  unfold add. destruct (has x s) eqn:H.
  - apply has_In in H. split; [auto|]. intros [->|I]; auto.
  - rewrite in_app_iff. simpl. intuition.
Qed.

Lemma add_NoDup (x : jsstring) (s : list jsstring) :
  NoDup s -> NoDup (add x s).
Proof.
  intros N. unfold add. destruct (has x s) eqn:H; [exact N|].
  apply NoDup_app; [exact N|repeat constructor; tauto|].
  intros y Hy [<-|[]]. apply has_In in Hy. congruence.
Qed.

Lemma add_length (x : jsstring) (s : list jsstring) :
  (List.length (add x s) <= List.length s + 1)%nat.
Proof.
  unfold add. destruct (has x s); [lia|]. rewrite length_app. simpl. lia.
Qed.

Lemma countItem_ok (f : fields) (st : stats) :
  statsOk st -> statsOk (countItem f (incrBooks st)).
Proof.
  intros (A & N & S & U & LA & LN & LS).
  unfold countItem, countSeries, incrBooks, statsOk.
  pose proof (add_length (f_author f) (authors st)).
  pose proof (add_length (f_narrator f) (narrators st)).
  pose proof (add_length (fst (parseSeries (f_seriesField f))) (series st)).
  destruct (nonempty (f_seriesField f));
    destruct (string_eqb (f_narrator f) (str "Unknown Narrator")) eqn:E;
    cbn [books authors narrators series standaloneCount];
    repeat split; auto using add_NoDup; try lia;
    try (rewrite add_In; intros [X|X]; [|contradiction];
         apply string_eqb_neq in E; congruence).
Qed.

Lemma incrBooks_ok (st : stats) : statsOk st -> statsOk (incrBooks st).
Proof.
  intros (A & N & S & U & LA & LN & LS). unfold incrBooks, statsOk.
  cbn [books authors narrators series standaloneCount].
  repeat split; auto; lia.
Qed.

Lemma scanItem_ok (t : FS.fs) (cfg : formatConfig) (libraryPath : jsstring)
  (acc : stats * list book) (metaPath : jsstring) :
  statsOk (fst acc) -> statsOk (fst (scanItem t cfg libraryPath acc metaPath)).
Proof.
  destruct acc as [st pl]. unfold scanItem. intros H.
  destruct (FS.readFile t metaPath) as [content|]; [|exact H].
  destruct (FS.JSON_parse content) as [data|]; [|exact H].
  destruct (readFields data) as [f|]; [|now apply incrBooks_ok].
  destruct (FS.readdir t (Path.dirname metaPath)) as [allFiles|];
    [|now apply countItem_ok].
  destruct (bookHasChanges _); now apply countItem_ok.
Qed.

Lemma scan_fold_ok (t : FS.fs) (cfg : formatConfig) (libraryPath : jsstring)
  (paths : list jsstring) (acc : stats * list book) :
  statsOk (fst acc) ->
  statsOk (fst (fold_left (scanItem t cfg libraryPath) paths acc)).
Proof.
  revert acc; induction paths as [|p paths IH]; intros acc H; simpl;
    [exact H|].
  apply IH. now apply scanItem_ok.
Qed.

End Statistics.

(** X9.  The statistics of every scan are coherent: the sets of authors,
    narrators and series hold no value twice, the default narrator "Unknown
    Narrator" is never counted as a narrator, and the number of authors, the
    number of narrators and the number of series plus the standalone count
    never exceed the number of books. *)
Theorem X9_statistics_coherent (t : FS.fs) (libraryPath : jsstring)
  (cfg : formatConfig) :
  statsOk (fst (scanLibrary t libraryPath cfg))
  /\ (forall result, scan t libraryPath cfg = Ok result ->
        statsOk (sr_stats result)).
Proof.
  assert (S : statsOk (fst (scanLibrary t libraryPath cfg))).
  { unfold scanLibrary. apply scan_fold_ok. unfold statsOk, emptyStats.
    cbn [fst books authors narrators series standaloneCount List.length].
    repeat split; try constructor; auto; lia. }
  split; [exact S|]. intros result. unfold scan.
  destruct libraryPath; [discriminate|].
  destruct (FS.access t _); [|discriminate].
  destruct (scanLibrary t _ cfg) as [st plans]. intros H. injection H as <-.
  exact S.
Qed.

(** ** Names within one plan *)

Section NoSelfCollision.

Lemma sorted_lt_NoDup (l : list jsstring) : StronglySorted keyLt l -> NoDup l.
Proof.
  induction 1 as [|x l S IH F]; constructor; [|exact IH].
  intros I. rewrite Forall_forall in F. specialize (F _ I).
  unfold keyLt in F. now rewrite string_ltb_irrefl in F.
Qed.

Lemma audioMoves_In_index (cfg : formatConfig) (cleanAuthor seriesTitle
  bookNumber cleanTitle dir : jsstring) (n : nat) (l : list jsstring) (k : nat)
  (m : fileMove) :
  In m (audioMoves cfg cleanAuthor seriesTitle bookNumber cleanTitle dir n l k) ->
  exists i, (k <= i < k + List.length l)%nat /\ In (oldName m) l
            /\ newName m = newNameOf cfg cleanAuthor seriesTitle bookNumber
                                     cleanTitle n (oldName m) i.
Proof.
  revert k; induction l as [|a l IH]; intros k; simpl; [contradiction|].
  intros [<-|H].
  - exists k. cbn [oldName newName]. repeat split; auto; lia.
  - destruct (IH _ H) as (i & Hi & I & E). exists i. repeat split; auto; lia.
Qed.

End NoSelfCollision.

(** X10.  Under a file format that builds names, the plan of an item with
    two to nine audio files, in a directory that lists no name twice, gives
    no two files the same new name, so that the moves of one plan cannot
    collide with each other; and every audio file keeps its extension. *)
Theorem X10_new_names_distinct (cfg : formatConfig) (libraryPath : jsstring)
  (f : fields) (dir : jsstring) (allFiles : list jsstring) :
  buildsNames cfg = true -> NoDup allFiles ->
  (2 <= List.length (sortAudio allFiles) <= 9)%nat ->
  let b := planItem cfg libraryPath f dir allFiles in
  NoDup (map newName (movePlan b))
  /\ (forall m, In m (movePlan b) -> type m = audio ->
        Path.extname (newName m) = Path.extname (oldName m)
        /\ isAudio (newName m) = true).
Proof.
  intros B N L. cbv zeta. unfold planItem.
  destruct (parseSeries (f_seriesField f)) as [seriesTitle bookNumber].
  cbn [movePlan]. unfold buildMovePlan.
  set (ca := cleanFilename (f_author f)). set (ct := cleanFilename (f_bookTitle f)).
  destruct (core_separator (stemOf cfg ca seriesTitle bookNumber ct)) as [z Ez].
  assert (AA : forallb isAudio (sortAudio allFiles) = true)
    by apply sortAudio_audio.
  assert (S1 : (1 < List.length (sortAudio allFiles))%nat) by lia.
  assert (S9 : (0 + List.length (sortAudio allFiles) <= 9)%nat) by (simpl; lia).
  split.
  - rewrite map_app, otherMoves_names, others_are_not_audio.
    apply NoDup_app.
    + apply sorted_lt_NoDup.
      exact (@moves_sorted cfg ca seriesTitle bookNumber ct _ z B S1 Ez dir
               _ 0 AA S9).
    + now apply NoDup_filter.
    + intros x Hx Ho. apply filter_In in Ho as [_ Ho].
      pose proof (@moves_audio cfg ca seriesTitle bookNumber ct _ z B S1 Ez dir
                    _ 0 AA S9) as TA.
      rewrite forallb_forall in TA. rewrite (TA _ Hx) in Ho. discriminate.
  - intros m Hm T. apply in_app_or in Hm as [Hm|Hm].
    2:{ apply otherMoves_In in Hm as (T' & _). congruence. }
    apply audioMoves_In_index in Hm as (i & Hi & I & ->).
    assert (A : isAudio (oldName m) = true)
      by (rewrite forallb_forall in AA; auto).
    assert (I9 : (i + 1 <= 9)%nat) by lia.
    split.
    + exact (@nameOf_extname cfg ca seriesTitle bookNumber ct _ z B S1 Ez
               (oldName m) i A I9).
    + exact (@nameOf_audio cfg ca seriesTitle bookNumber ct _ z B S1 Ez
               (oldName m) i A I9).
Qed.

Lemma X10_new_names_distinct_witness :
  NoDup (map newName
           (movePlan (planItem Sample.fullDetails (str "/lib")
                        (Sample.mistborn "Mistborn #1" "The Final Empire")
                        (str "/lib/X") Sample.twoTracks))).
Proof.
  apply (@X10_new_names_distinct Sample.fullDetails (str "/lib")
           (Sample.mistborn "Mistborn #1" "The Final Empire")
           (str "/lib/X") Sample.twoTracks).
  - reflexivity.
  - unfold Sample.twoTracks.
    repeat (constructor; [vm_compute; intuition discriminate|]). constructor.
  - vm_compute. lia.
Defined.

(** ** Plans and the executor *)

(** X11.  A file of a plan that already has its new name, in an item whose
    target directory is its own directory, is passed over by the executor:
    nothing is looked up, moved, recorded or logged for it. *)
Theorem X11_files_in_place_skipped (cfg : formatConfig) (libraryPath : jsstring)
  (f : fields) (dir : jsstring) (allFiles : list jsstring) (m : fileMove)
  (st : execState) :
  let b := planItem cfg libraryPath f dir allFiles in
  In m (movePlan b) -> targetDir b = dir -> oldName m = newName m ->
  moveFile (targetDir b) st m = st.
Proof.
  cbv zeta. intros I T E.
  pose proof (@planItem_oldPath cfg libraryPath f dir allFiles m I) as P.
  rewrite T. unfold moveFile.
  rewrite P, E, string_eqb_refl. reflexivity.
Qed.

Lemma X11_files_in_place_skipped_witness :
  moveFile (str "/lib/A/T") (initialState Sample.strayDisk)
           {| oldName := str "metadata.json"; newName := str "metadata.json";
              oldPath := str "/lib/A/T/metadata.json"; type := other |}
  = initialState Sample.strayDisk.
Proof.
  assert (T : targetDir (planItem Sample.fullDetails (str "/lib")
                           {| f_author := str "A"; f_bookTitle := str "T";
                              f_narrator := str "Unknown Narrator";
                              f_seriesField := [] |}
                           (str "/lib/A/T") [str "metadata.json"; str "x.mp3"])
              = str "/lib/A/T") by (vm_compute; reflexivity).
  rewrite <- T at 1.
  apply (@X11_files_in_place_skipped Sample.fullDetails (str "/lib")
           {| f_author := str "A"; f_bookTitle := str "T";
              f_narrator := str "Unknown Narrator"; f_seriesField := [] |}
           (str "/lib/A/T") [str "metadata.json"; str "x.mp3"]).
  - vm_compute. right. left. reflexivity.
  - exact T.
  - reflexivity.
Defined.

Section TargetPath.

Lemma normalize_nonempty (path : jsstring) : Path.normalize path <> [].
Proof.
  unfold Path.normalize. destruct path as [|c r]; [discriminate|].
  destruct (Path.normalizeString (c :: r) _) as [|x p].
  - destruct (Path.isAbsolute (c :: r)); [discriminate|].
    destruct (match rev (c :: r) with [] => false | c0 :: _ => Path.is_slash c0 end);
      discriminate.
  - destruct (match rev (c :: r) with [] => false | c0 :: _ => Path.is_slash c0 end);
      destruct (Path.isAbsolute (c :: r)); discriminate.
Qed.

Lemma normalize_absolute (path : jsstring) :
  Path.isAbsolute path = true -> Path.isAbsolute (Path.normalize path) = true.
Proof.
  intros A. unfold Path.normalize. destruct path as [|c r]; [discriminate|].
  rewrite A. destruct (Path.normalizeString (c :: r) _) as [|x p].
  - reflexivity.
  - destruct (match rev (c :: r) with [] => false | c0 :: _ => Path.is_slash c0 end);
      reflexivity.
Qed.

Lemma join_nonempty (args : list jsstring) : Path.join args <> [].
Proof.
  unfold Path.join. destruct (filter nonempty args); [discriminate|].
  apply normalize_nonempty.
Qed.

Lemma join_absolute (first : jsstring) (rest : list jsstring) :
  Path.isAbsolute first = true ->
  Path.isAbsolute (Path.join (first :: rest)) = true.
Proof.
  intros A. unfold Path.join. cbn [filter].
  destruct first as [|c r]; [discriminate|]. cbn [nonempty].
  apply normalize_absolute.
  destruct (filter nonempty rest); exact A.
Qed.

End TargetPath.

(** X12.  The target directory of a plan is never the empty path, and it is
    an absolute path whenever the library path is one. *)
Theorem X12_target_path_absolute (cfg : formatConfig) (libraryPath : jsstring)
  (f : fields) (dir : jsstring) (allFiles : list jsstring) :
  targetDir (planItem cfg libraryPath f dir allFiles) <> []
  /\ (Path.isAbsolute libraryPath = true ->
      Path.isAbsolute (targetDir (planItem cfg libraryPath f dir allFiles)) = true).
Proof.
  unfold planItem.
  destruct (parseSeries (f_seriesField f)) as [seriesTitle bookNumber].
  cbn [targetDir]. unfold buildTargetPath.
  destruct (string_eqb (folderFormat cfg) (str "author-series-book")
            && nonempty seriesTitle);
    (split; [apply join_nonempty|apply join_absolute]).
Qed.

(** X13.  The series title read from a series field is always in sanitized
    form, and the book number is empty exactly when the field holds no [#]:
    a field with a [#] always gives a book number, be it only the padding
    ["00"]. *)
Theorem X13_series_title_and_number (seriesField : jsstring) :
  sanitized (fst (parseSeries seriesField))
  /\ (snd (parseSeries seriesField) = [] <-> includes hash seriesField = false).
Proof.
  split.
  - rewrite parseSeries_title. apply cleanFilename_sanitized.
  - unfold parseSeries. destruct seriesField as [|c0 r0]; [simpl; tauto|].
    cbn [nonempty]. destruct (includes hash (c0 :: r0)); cbn [snd];
      [|tauto].
    split; [|discriminate]. intros H. exfalso.
    set (raw := trim (nth 1 (split hash (c0 :: r0)) [])) in *.
    destruct (includes Path.dot raw).
    + apply app_eq_nil in H as [_ H]. discriminate.
    + destruct (isNaN raw) eqn:E; cbn [negb] in H.
      * subst raw. rewrite H in E. discriminate.
      * unfold padStart2 in H. apply app_eq_nil in H as [H1 H2].
        rewrite H2 in H1. discriminate.
Qed.

Section Collisions.

Lemma moveFile_collisions_from (targetDir : jsstring) (st : execState)
  (m : fileMove) (name : jsstring) :
  In name (collisions (res (moveFile targetDir st m))) ->
  In name (collisions (res st))
  \/ (name = newName m /\ oldPath m <> Path.join [targetDir; newName m]
      /\ FS.access (disk st) (Path.join [targetDir; newName m]) = true).
Proof.
  destruct (moveFile_cases targetDir st m)
    as [[_ F]|[(N & A & F)|[(_ & _ & d & _ & F)|(_ & _ & _ & F)]]];
    rewrite F; simpl; auto.
  intros H. apply in_app_or in H as [H|[<-|[]]]; auto.
Qed.

Lemma moves_collisions_from (targetDir : jsstring) (ms : list fileMove)
  (st : execState) (name : jsstring) :
  In name (collisions (res (fold_left (moveFile targetDir) ms st))) ->
  In name (collisions (res st))
  \/ exists m, In m ms /\ name = newName m
               /\ oldPath m <> Path.join [targetDir; newName m].
Proof.
  revert st; induction ms as [|m ms IH]; intros st; simpl; [auto|].
  intros H. apply IH in H as [H|(m' & I & E & N)].
  - apply moveFile_collisions_from in H as [H|(E & N & _)]; [auto|].
    right. exists m. auto.
  - right. exists m'. auto.
Qed.

Lemma books_collisions_from (plans : list book) (st : execState) (name : jsstring) :
  In name (collisions (res (fold_left executeBook plans st))) ->
  In name (collisions (res st))
  \/ exists b m, In b plans /\ In m (movePlan b) /\ name = newName m
                 /\ oldPath m <> Path.join [targetDir b; newName m].
Proof.
  revert st; induction plans as [|b plans IH]; intros st; simpl; [auto|].
  intros H. apply IH in H as [H|(b' & m & Ib & Im & E & N)].
  - unfold executeBook in H.
    destruct (FS.mkdir (disk st) (targetDir b)) as [disk1|]; [|simpl in H; auto].
    cbn [res recordApplied collisions] in H.
    apply moves_collisions_from in H as [H|(m & Im & E & N)]; [auto|].
    right. exists b, m. auto.
  - right. exists b', m. auto.
Qed.

End Collisions.

(** X14.  Every name in the collisions of an execute call is the new name of
    a file move of one of the plans, one whose target path is not its source
    path; a call with no plan or with plans that hold no file move reports
    no collision. *)
Theorem X14_collisions_are_planned (t : FS.fs) (plans : list book)
  (name : jsstring) :
  In name (collisions (res (execute t plans))) ->
  exists b m, In b plans /\ In m (movePlan b) /\ name = newName m
              /\ oldPath m <> Path.join [targetDir b; newName m].
Proof.
  intros H. unfold execute in H.
  apply books_collisions_from in H as [H|H]; [contradiction|exact H].
Qed.

Lemma X14_collisions_are_planned_witness :
  exists b m,
    In b (plansOf (scan Sample.collidingDisk (str "/lib") Sample.fullDetails))
    /\ In m (movePlan b) /\ str "A - T.mp3" = newName m
    /\ oldPath m <> Path.join [targetDir b; newName m].
Proof.
  apply (@X14_collisions_are_planned Sample.collidingDisk).
  vm_compute. left. reflexivity.
Defined.

Section LeadingZeros.

Lemma digit_not_space (c : char) : is_digit c = true -> is_space c = false.
Proof.
  unfold is_digit. intros H. apply andb_true_iff in H as [H1 H2].
  apply N.leb_le in H1, H2. unfold is_space.
  repeat match goal with
         | |- context [(?a <=? ?b)%N] => destruct (N.leb_spec a b); try lia
         | |- context [(?a =? ?b)%N] => destruct (N.eqb_spec a b); try lia
         end.
  all: reflexivity.
Qed.

Lemma digit_not (c k : char) :
  is_digit c = true -> (k < 48 \/ 57 < k)%N -> (c =? k)%N = false.
Proof.
  unfold is_digit. intros H K. apply andb_true_iff in H as [H1 H2].
  apply N.leb_le in H1, H2. apply N.eqb_neq. lia.
Qed.

Lemma digits_last (d r : jsstring) (c : char) :
  all_digits d = true -> d = r ++ [c] -> is_digit c = true.
Proof.
  intros D ->. unfold all_digits in D. rewrite forallb_app in D.
  apply andb_true_iff in D as [_ D]. simpl in D. now rewrite andb_true_r in D.
Qed.

Lemma digits_trim (d : jsstring) : all_digits d = true -> trim d = d.
Proof.
  intros D. apply trim_fixed.
  - intros c r ->. simpl in D. apply andb_true_iff in D as [D _].
    now apply digit_not_space.
  - intros c r E. apply digit_not_space. eapply digits_last; eauto.
Qed.

Lemma digits_dropWhile (d : jsstring) :
  all_digits d = true -> dropWhile is_digit d = [].
Proof.
  induction d as [|c d IH]; simpl; [reflexivity|].
  intros H. apply andb_true_iff in H as [H1 H2]. now rewrite H1, IH.
Qed.

Lemma digits_isNaN (d : jsstring) :
  d <> [] -> all_digits d = true -> isNaN d = false.
Proof.
  intros NE D. unfold isNaN. rewrite digits_trim by exact D.
  destruct d as [|c r]; [contradiction|].
  assert (C : is_digit c = true) by (simpl in D; now apply andb_true_iff in D).
  unfold strNumericLiteral.
  rewrite (@digit_not _ 43%N C), (@digit_not _ 45%N C) by lia. cbn [orb].
  unfold strUnsignedDecimalLiteral.
  replace (string_eqb (c :: r) (str "Infinity")) with false.
  2:{ cbn [str map list_ascii_of_string string_eqb]. unfold char_eqb.
      change (N_of_ascii "I") with 73%N. now rewrite (@digit_not _ 73%N C) by lia. }
  rewrite digits_dropWhile, takeWhile_all by exact D. reflexivity.
Qed.

Lemma digits_parseInt (d : jsstring) :
  d <> [] -> all_digits d = true ->
  parseInt d = Int (Z.of_N (radix_value 10 d)).
Proof.
  intros NE D. unfold parseInt, trimStart.
  destruct d as [|c r]; [contradiction|].
  assert (C : is_digit c = true) by (simpl in D; now apply andb_true_iff in D).
  rewrite dropWhile_fixed
    by (intros x y E; injection E as <- _; now apply digit_not_space).
  rewrite (@digit_not _ 43%N C), (@digit_not _ 45%N C) by lia.
  destruct r as [|k r'].
  - simpl. rewrite C. reflexivity.
  - assert (K : is_digit k = true).
    { simpl in D. apply andb_true_iff in D as [_ D].
      now apply andb_true_iff in D. }
    rewrite (@digit_not _ 120%N K), (@digit_not _ 88%N K) by lia.
    rewrite andb_false_r.
    rewrite takeWhile_all by exact D. reflexivity.
Qed.

Lemma keyPartOf_zero (d : jsstring) :
  d <> [] -> all_digits d = true -> keyPartOf (48%N :: d) = keyPartOf d.
Proof.
  intros NE D. unfold keyPartOf.
  assert (D' : all_digits (48%N :: d) = true) by (simpl; exact D).
  rewrite !digits_isNaN, !digits_parseInt by (assumption || discriminate).
  reflexivity.
Qed.

Lemma splitDigitRuns_run (p d v : jsstring) :
  (forall u c, p = u ++ [c] -> is_digit c = false) ->
  d <> [] -> all_digits d = true ->
  (forall x r, v = x :: r -> is_digit x = false) ->
  splitDigitRuns (p ++ d ++ v) = splitDigitRuns p ++ d :: splitDigitRuns v.
Proof.
  intros P NE D V.
  destruct p as [|x p'].
  - simpl. now apply splitDigitRuns_digits.
  - destruct (@exists_last _ (x :: p')) as (u & c & E); [discriminate|].
    rewrite E. apply splitDigitRuns_middle; auto. eapply P; eauto.
Qed.

End LeadingZeros.

(** X15.  The sort key reads a run of digits as a number, so a leading zero
    does not count: two file names that differ only by a zero in front of a
    run of digits have the same key, and the comparison function of the sort
    gives 0 for them (the sort leaves them in their listing order). *)
Theorem X15_leading_zero_ignored (p d v : jsstring) :
  (forall u c, p = u ++ [c] -> is_digit c = false) ->
  d <> [] -> all_digits d = true ->
  (forall x r, v = x :: r -> is_digit x = false) ->
  naturalSortKey (p ++ (str "0" ++ d) ++ v) = naturalSortKey (p ++ d ++ v)
  /\ compareFn (p ++ (str "0" ++ d) ++ v) (p ++ d ++ v) = 0%Z.
Proof.
  intros P NE D V.
  change (str "0" ++ d) with (@cons char 48%N d).
  assert (K : naturalSortKey (p ++ (@cons char 48%N d) ++ v)
              = naturalSortKey (p ++ d ++ v)).
  { rewrite !naturalSortKey_map.
    rewrite (@splitDigitRuns_run p (@cons char 48%N d) v) by (auto; discriminate).
    rewrite (@splitDigitRuns_run p d v) by auto.
    rewrite !map_app. cbn [map]. now rewrite keyPartOf_zero. }
  split; [exact K|].
  unfold compareFn, array_ltb. rewrite K.
  now rewrite string_ltb_irrefl.
Qed.

Lemma X15_leading_zero_ignored_witness :
  naturalSortKey (str "track01.mp3") = naturalSortKey (str "track1.mp3")
  /\ compareFn (str "track01.mp3") (str "track1.mp3") = 0%Z.
Proof.
  apply (@X15_leading_zero_ignored (str "track") (str "1") (str ".mp3")).
  - intros u c E.
    assert (L : last (str "track") 0%N = last (u ++ [c]) 0%N) by now rewrite E.
    rewrite last_last in L. subst c. reflexivity.
  - discriminate.
  - reflexivity.
  - intros x r E. injection E as <- _. reflexivity.
Defined.

(** ** The further properties on the sample library *)


Lemma X5_compareFn_consistent_witness :
  (compareFn (str "a.mp3") (str "c.mp3") <= 0)%Z.
Proof.
  destruct (X5_compareFn_consistent (str "a.mp3") (str "b.mp3") (str "c.mp3"))
    as (_ & _ & T & _).
  apply T; vm_compute; discriminate.
Defined.

Lemma X9_statistics_coherent_witness :
  exists result,
    scan Sample.strayDisk (str "/lib") Sample.fullDetails = Ok result
    /\ statsOk (sr_stats result).
Proof.
  destruct (X9_statistics_coherent Sample.strayDisk (str "/lib") Sample.fullDetails)
    as (_ & S).
  destruct (scan Sample.strayDisk (str "/lib") Sample.fullDetails)
    as [result|code] eqn:E; [|vm_compute in E; discriminate E].
  exists result. split; [reflexivity|]. apply S. reflexivity.
Defined.

Lemma X12_target_path_absolute_witness :
  Path.isAbsolute
    (targetDir (planItem Sample.fullDetails (str "/lib")
                  (Sample.mistborn "Mistborn #1" "The Final Empire")
                  (str "/lib/X") Sample.twoTracks)) = true.
Proof.
  apply (X12_target_path_absolute Sample.fullDetails (str "/lib")
           (Sample.mistborn "Mistborn #1" "The Final Empire")
           (str "/lib/X") Sample.twoTracks).
  reflexivity.
Defined.

Section Walk.

Lemma reach_file (c : FS.content) (names : list jsstring) (target : FS.node) :
  reach (FS.File c) names target -> names = [] /\ target = FS.File c.
Proof. destruct names; simpl; [auto|contradiction]. Qed.

Lemma walk_sound :
  forall (n : FS.node) (dir p : jsstring),
    In p (walk dir n) ->
    exists names c,
      reach n (names ++ [str "metadata.json"]) (FS.File c)
      /\ p = joinAll dir (names ++ [str "metadata.json"]).
Proof.
  fix IH 1. intros n dir p.
  destruct n as [c|es]; [intros []|].
  cbn [walk]. induction es as [|[name child] es IHes]; [intros []|].
  cbn [flat_map]. intros H. apply in_app_or in H as [H|H].
  - pose proof (IH child (Path.join [dir; name]) p) as IHc.
    destruct child as [c|es'].
    + destruct (string_eqb name (str "metadata.json")) eqn:E; [|destruct H].
      destruct H as [<-|[]]. apply string_eqb_eq in E. subst name.
      exists [], c. split; [|reflexivity].
      cbn [app reach]. exists (FS.File c). split; [now left|reflexivity].
    + apply IHc in H as (names & c & R & ->).
      exists (name :: names), c. split; [|reflexivity].
      cbn [app reach]. exists (FS.Dir es'). split; [now left|exact R].
  - apply IHes in H as (names & c & R & ->).
    exists names, c. split; [|reflexivity].
    destruct names as [|s r]; cbn [app reach] in *;
      destruct R as (child' & I & R); exists child'; split; auto; now right.
Qed.

Lemma walk_complete (names : list jsstring) :
  forall (n : FS.node) (dir : jsstring) (c : FS.content),
    reach n (names ++ [str "metadata.json"]) (FS.File c) ->
    In (joinAll dir (names ++ [str "metadata.json"])) (walk dir n).
Proof.
  induction names as [|s r IH]; intros n dir c R; cbn [app reach] in R;
    destruct n as [c0|es]; try contradiction;
    destruct R as (child & I & R); cbn [walk]; apply in_flat_map.
  - exists (str "metadata.json", child). split; [exact I|].
    simpl in R. subst child. rewrite string_eqb_refl. now left.
  - exists (s, child). split; [exact I|].
    destruct child as [c1|es'].
    + apply reach_file in R as [R _]. now destruct r.
    + cbn [app joinAll fold_left]. eapply IH. exact R.
Qed.

End Walk.

(** X16.  The walk over the library finds exactly the files named
    [metadata.json], at any depth: a path is in its result if and only if
    it is the directory joined with the names of the directories on the way
    down to a file (no directory) of that name, each such file once for
    every way down to it; a file of another name is never found, and from a
    path that names no directory nothing is found. *)
Theorem X16_walk_finds_metadata_files (n : FS.node) (dir p : jsstring) :
  (In p (walk dir n) <->
   exists names c,
     reach n (names ++ [str "metadata.json"]) (FS.File c)
     /\ p = joinAll dir (names ++ [str "metadata.json"]))
  /\ (forall t, FS.readdir t dir = None -> findMetadataFiles t dir = []).
Proof.
  split.
  - split; [apply walk_sound|].
    intros (names & c & R & ->). eapply walk_complete. exact R.
  - intros t. unfold FS.readdir, findMetadataFiles.
    destruct (FS.resolve dir) as [segs|]; [|reflexivity].
    destruct (FS.get t segs) as [[c|es]|]; [reflexivity|discriminate|reflexivity].
Qed.

Lemma X16_walk_finds_metadata_files_witness :
  In (str "/lib/X/metadata.json")
     (findMetadataFiles Sample.strayDisk (str "/lib"))
  /\ findMetadataFiles Sample.strayDisk (str "/lib/X/a.mp3") = [].
Proof.
  split.
  - change (findMetadataFiles Sample.strayDisk (str "/lib"))
      with (walk (str "/lib")
              (FS.Dir [(str "X",
                    FS.Dir [(str "metadata.json", FS.File (FS.Json Sample.book1));
                            (str "a.mp3", FS.File (FS.Raw [1%N]))]);
                   (str "A",
                    FS.Dir [(str "T",
                             FS.Dir [(str "old.mp3", FS.File (FS.Raw [2%N]))])])])).
    apply X16_walk_finds_metadata_files.
    exists [str "X"], (FS.Json Sample.book1). split; [|vm_compute; reflexivity].
    cbn [app reach]. eexists. split; [left; reflexivity|].
    eexists. split; [left; reflexivity|reflexivity].
  - apply (proj2 (@X16_walk_finds_metadata_files
                    (FS.Dir []) (str "/lib/X/a.mp3") [])).
    vm_compute. reflexivity.
Defined.

Section ScanCounts.

Variable t : FS.fs.
Variable cfg : formatConfig.
Variable libraryPath : jsstring.

Lemma countItem_books (f : fields) (st : stats) :
  books (countItem f st) = books st.
Proof.
  unfold countItem, countSeries.
  destruct (nonempty (f_seriesField f)); reflexivity.
Qed.

Lemma scanItem_counts (acc : stats * list book) (metaPath : jsstring) :
  let acc' := scanItem t cfg libraryPath acc metaPath in
  (N.of_nat (List.length (snd acc')) + books (fst acc)
   <= books (fst acc') + N.of_nat (List.length (snd acc)))%N
  /\ (books (fst acc') <= books (fst acc) + 1)%N
  /\ (forall b, In b (snd acc') ->
        In b (snd acc) \/ bookDir b = Path.dirname metaPath).
Proof.
  destruct acc as [st pl]. cbv zeta. unfold scanItem.
  destruct (FS.readFile t metaPath) as [content|];
    [|cbn [fst snd]; repeat split; auto; lia].
  destruct (FS.JSON_parse content) as [data|];
    [|cbn [fst snd]; repeat split; auto; lia].
  destruct (readFields data) as [f|];
    [|cbn [fst snd incrBooks books]; repeat split; auto; lia].
  destruct (FS.readdir t (Path.dirname metaPath)) as [allFiles|];
    [|cbn [fst snd]; rewrite countItem_books; cbn [incrBooks books];
      repeat split; auto; lia].
  destruct (bookHasChanges _) eqn:E;
    cbn [fst snd]; rewrite countItem_books; cbn [incrBooks books];
    repeat split; auto; try lia.
  - rewrite length_app. cbn [List.length]. lia.
  - intros b Hb. apply in_app_or in Hb as [Hb|[<-|[]]]; [auto|].
    right. unfold planItem.
    destruct (parseSeries (f_seriesField f)). reflexivity.
Qed.

Lemma scan_fold_counts (paths : list jsstring) (acc : stats * list book) :
  let acc' := fold_left (scanItem t cfg libraryPath) paths acc in
  (N.of_nat (List.length (snd acc')) + books (fst acc)
   <= books (fst acc') + N.of_nat (List.length (snd acc)))%N
  /\ (books (fst acc') <= books (fst acc) + N.of_nat (List.length paths))%N
  /\ (forall b, In b (snd acc') ->
        In b (snd acc)
        \/ exists metaPath, In metaPath paths /\ bookDir b = Path.dirname metaPath).
Proof.
  cbv zeta. revert acc. induction paths as [|p paths IH]; intros acc.
  - cbn [fold_left List.length]. repeat split; auto; lia.
  - cbn [fold_left].
    destruct (IH (scanItem t cfg libraryPath acc p)) as (A & B & C).
    destruct (scanItem_counts acc p) as (A' & B' & C').
    split; [lia|]. split; [cbn [List.length]; lia|].
    intros b Hb. apply C in Hb as [Hb|(mp & I & E)].
    + apply C' in Hb as [Hb|Hb]; [auto|]. right. exists p. split; [now left|auto].
    + right. exists mp. split; [now right|auto].
Qed.

End ScanCounts.

(** X17.  A scan answers with status 400 exactly for the empty library
    path and with status 500 exactly for a path that is not there; unreadable
    or malformed items never make it fail.  In the answer the plan holds no
    more items than books were counted, no more books were counted than
    [metadata.json] files were found, and every item of the plan is the
    directory of one of these files. *)
Theorem X17_scan_answers (t : FS.fs) (libraryPath : jsstring)
  (cfg : formatConfig) :
  (scan t libraryPath cfg = Error 400 <-> libraryPath = [])
  /\ (scan t libraryPath cfg = Error 500 <->
      libraryPath <> [] /\ FS.access t libraryPath = false)
  /\ (libraryPath <> [] -> FS.access t libraryPath = true ->
      exists result,
        scan t libraryPath cfg = Ok result
        /\ (N.of_nat (List.length (plannedMoves result))
            <= books (sr_stats result))%N
        /\ (books (sr_stats result)
            <= N.of_nat (List.length (findMetadataFiles t libraryPath)))%N
        /\ (forall b, In b (plannedMoves result) ->
              exists metaPath,
                In metaPath (findMetadataFiles t libraryPath)
                /\ bookDir b = Path.dirname metaPath)).
Proof.
  unfold scan.
  destruct libraryPath as [|c r] eqn:L.
  - split; [tauto|]. split; [|intros H; contradiction].
    split; [discriminate|]. intros [H _]. contradiction.
  - rewrite <- L.
    pose proof (scan_fold_counts t cfg libraryPath
                  (findMetadataFiles t libraryPath) (emptyStats, [])) as F.
    unfold scanLibrary.
    destruct (fold_left (scanItem t cfg libraryPath)
                (findMetadataFiles t libraryPath) (emptyStats, []))
      as [st plans].
    cbv zeta in F. cbn [fst snd emptyStats books List.length] in F.
    destruct F as (A & B & C).
    assert (NE : libraryPath <> []) by (rewrite L; discriminate).
    destruct (FS.access t libraryPath) eqn:Acc.
    + split; [split; [discriminate|intros H; contradiction]|].
      split; [split; [discriminate|intros [_ H]; discriminate]|].
      intros _ _. eexists. split; [reflexivity|].
      cbn [sr_stats plannedMoves].
      split; [lia|]. split; [lia|].
      intros b Hb. apply C in Hb as [[]|Hb]. exact Hb.
    + split; [split; [discriminate|intros H; contradiction]|].
      split; [split; [auto|reflexivity]|].
      intros _ H. discriminate.
Qed.

Lemma X17_scan_answers_witness :
  exists result,
    scan Sample.strayDisk (str "/lib") Sample.fullDetails = Ok result
    /\ (N.of_nat (List.length (plannedMoves result)) <= books (sr_stats result))%N
    /\ (books (sr_stats result)
        <= N.of_nat (List.length (findMetadataFiles Sample.strayDisk (str "/lib"))))%N
    /\ (forall b, In b (plannedMoves result) ->
          exists metaPath,
            In metaPath (findMetadataFiles Sample.strayDisk (str "/lib"))
            /\ bookDir b = Path.dirname metaPath).
Proof.
  apply (X17_scan_answers Sample.strayDisk (str "/lib") Sample.fullDetails).
  - discriminate.
  - vm_compute. reflexivity.
Defined.
